(** * The hidden-value recall example: experience function and reward

    A shallow embedding of [examples/experience_demo/encoder_decoder_text.py]:
    the reward function [reward_fn] with its helper [get_last_digit], and the
    two-stage experience function [encoder_decoder_experience_fn].

    Python values are modelled as follows.
    - [str] is [string]; a character stands for the code point of the same
      number, so the strings of the model are the Python strings over the
      code points below 256.
    - [int] (and the numpy integers of [np.random.randint]) is [Z].
    - a raised exception is the [Raise] case of [result].
    - a [dict] is a [gmap] with string keys, a [list] is a [list]. *)

From Stdlib Require Import ZArith Ascii String DecimalString DecimalPos DecimalZ.
From stdpp Require Import base option list strings gmap fin_maps.

Local Open Scope string_scope.
Local Open Scope list_scope.
Local Open Scope Z_scope.

(** ** Exceptions *)

Inductive exn : Type :=
| AssertionError
| TypeError
| IndexError
| ValueError
| KeyError.

Inductive result (A : Type) : Type :=
| Ok (a : A)
| Raise (e : exn).
Arguments Ok {A} a.
Arguments Raise {A} e.

#[global] Instance result_ret : MRet result := fun _ a => Ok a.
#[global] Instance result_bind : MBind result := fun _ _ f m =>
  match m with
  | Ok a => f a
  | Raise e => Raise e
  end.
#[global] Instance result_fmap : FMap result := fun _ _ f m =>
  match m with
  | Ok a => Ok (f a)
  | Raise e => Raise e
  end.

Definition is_ok {A} (r : result A) : bool :=
  match r with Ok _ => true | Raise _ => false end.

(** [xs[i]] for a Python list and an index from a [range]. *)
Definition getitem {A} (xs : list A) (i : nat) : result A :=
  match xs !! i with
  | Some x => Ok x
  | None => Raise IndexError
  end.

(** [list(map(f, xs))]: the first element on which [f] raises aborts. *)
Fixpoint map_result {A B} (f : A -> result B) (xs : list A) : result (list B) :=
  match xs with
  | [] => Ok []
  | x :: xs' =>
      y ← f x;
      ys ← map_result f xs';
      Ok (y :: ys)
  end.

(** [for i in range(n): body], started at index [i], threading the locals [s]. *)
Fixpoint for_range {S} (body : nat -> S -> result S) (i n : nat) (s : S) : result S :=
  match n with
  | O => Ok s
  | Datatypes.S n' =>
      s' ← body i s;
      for_range body (Datatypes.S i) n' s'
  end.

(** [for x in xs: body] where the body only checks. *)
Fixpoint for_each {A} (body : A -> result unit) (xs : list A) : result unit :=
  match xs with
  | [] => Ok tt
  | x :: xs' =>
      _ ← body x;
      for_each body xs'
  end.

Definition py_assert (b : bool) : result unit :=
  if b then Ok tt else Raise AssertionError.

(** ** Strings *)

Definition newline : string := String (ascii_of_nat 10) EmptyString.

(** The decimal digits [0] to [9]. *)
Definition is_decimal_char (c : ascii) : bool :=
  let n := nat_of_ascii c in
  (48 <=? n)%nat && (n <=? 57)%nat.

(** The other characters below 256 that [str.isdigit] accepts: the
    superscripts two, three and one (U+00B2, U+00B3, U+00B9). *)
Definition is_superscript_digit (c : ascii) : bool :=
  let n := nat_of_ascii c in
  (n =? 178)%nat || (n =? 179)%nat || (n =? 185)%nat.

Definition isdigit_char (c : ascii) : bool :=
  is_decimal_char c || is_superscript_digit c.

Fixpoint all_chars (p : ascii -> bool) (s : string) : bool :=
  match s with
  | EmptyString => true
  | String c s' => p c && all_chars p s'
  end.

(** [s.isdigit()]: at least one character, and all of them digits. *)
Definition isdigit (s : string) : bool :=
  match s with
  | EmptyString => false
  | _ => all_chars isdigit_char s
  end.

Definition digit_value (c : ascii) : Z := Z.of_nat (nat_of_ascii c) - 48.

Fixpoint decimal_value (acc : Z) (s : string) : Z :=
  match s with
  | EmptyString => acc
  | String c s' => decimal_value (10 * acc + digit_value c) s'
  end.

(** [int(s)] on a string for which [s.isdigit()] holds, the only strings it
    is called on: decimal digits are read in base ten, a superscript digit
    is an invalid literal. *)
Definition int_of_digits (s : string) : result Z :=
  match s with
  | EmptyString => Raise ValueError
  | _ => if all_chars is_decimal_char s then Ok (decimal_value 0 s)
         else Raise ValueError
  end.

Fixpoint last_char (s : string) : option ascii :=
  match s with
  | EmptyString => None
  | String c EmptyString => Some c
  | String _ s' => last_char s'
  end.

(** [s[-1]] on a string. *)
Definition str_last (s : string) : result string :=
  match last_char s with
  | Some c => Ok (String c EmptyString)
  | None => Raise IndexError
  end.

(** ** Values of a trajectory *)

Inductive pyval : Type :=
| PInt (z : Z)
| PStr (s : string).

#[global] Instance pyval_eq_dec : EqDecision pyval.
Proof. solve_decision. Defined.

#[global] Instance pyval_inhabited : Inhabited pyval := populate (PInt 0).

(** [v[-1]]: an integer is not subscriptable. *)
Definition subscript_last (v : pyval) : result string :=
  match v with
  | PStr s => str_last s
  | PInt _ => Raise TypeError
  end.

(** [digit == reconstructed_digit] where the right-hand side is an [int]. *)
Definition py_eq_int (v : pyval) (z : Z) : bool :=
  match v with
  | PInt d => d =? z
  | PStr _ => false
  end.

(** ** [get_last_digit] *)

Definition get_last_digit (sample : pyval) : result Z :=
  last_word ← subscript_last sample;
  if isdigit last_word then int_of_digits last_word
  else Ok (-1).

(** ** [reward_fn] *)

(** What [reward_fn] is handed: the list of lists that the experience
    function builds, or a two-dimensional array of shape
    [(length rows, ncols)], the only one of the two that the indexing
    [trajectories[:, j]] is defined on. *)
Inductive pyobj : Type :=
| PyList (rows : list (list pyval))
| NdArray (ncols : nat) (rows : list (list pyval)).

Definition rows_of (t : pyobj) : list (list pyval) :=
  match t with
  | PyList rows => rows
  | NdArray _ rows => rows
  end.

Definition wf_pyobj (t : pyobj) : bool :=
  match t with
  | PyList _ => true
  | NdArray ncols rows => forallb (fun r => (length r =? ncols)%nat) rows
  end.

(** [trajectories[:, j]]: a list cannot be indexed by a tuple. *)
Definition column (t : pyobj) (j : nat) : result (list pyval) :=
  match t with
  | PyList _ => Raise TypeError
  | NdArray ncols rows =>
      if (j <? ncols)%nat then map_result (fun r => getitem r j) rows
      else Raise IndexError
  end.

Definition score (digit : pyval) (reconstructed_digit : Z) : Z :=
  if py_eq_int digit reconstructed_digit then 1 else 0.

Definition reward_fn (trajectories : pyobj) : result (list Z) :=
  _ ← for_each (fun sample => py_assert (length sample =? 3)%nat)
        (rows_of trajectories);
  outputs ← column trajectories 2;
  reconstructed_digits ← map_result get_last_digit outputs;
  digits ← column trajectories 0;
  Ok (zip_with score digits reconstructed_digits).

(** ** The blocks of [encoder_decoder_experience_fn] *)

(** [xs[i] = v] on a Python list. *)
Definition setitem {A} (xs : list A) (i : nat) (v : A) : result (list A) :=
  if (i <? length xs)%nat then Ok (<[i:=v]> xs) else Raise IndexError.

(** What an f-string prints for an integer. *)
Definition str_of_int (z : Z) : string := NilEmpty.string_of_int (Z.to_int z).

Definition fact_str (digit : Z) : string :=
  "Fact: x = " +:+ str_of_int digit +:+ newline +:+ "Continue the poem:"
    +:+ newline +:+ newline.

Definition recall_str : string :=
  newline +:+ "Recall fact: x is either 0 or 1." +:+ newline +:+ "Answer: x =".

(** [[f"Fact: x = {digits[i]}..." for i in range(batch_size)]] *)
Definition fact_strs (batch_size : nat) (digits : list Z) : result (list string) :=
  map_result (fun i => digit ← getitem digits i; Ok (fact_str digit))
    (seq 0 batch_size).

(** The right-hand side of the assignment in the first loop. *)
Definition first_run_str (fact prompt : string) : string :=
  (fact +:+ prompt) +:+ ("The" +:+ newline).

Definition first_run_strs (batch_size : nat) (fact_strs str_prompts : list string)
  : result (list string) :=
  for_range
    (fun i strs =>
       fact ← getitem fact_strs i;
       prompt ← getitem str_prompts i;
       setitem strs i (first_run_str fact prompt))
    0 batch_size (replicate batch_size EmptyString).

(** The right-hand side of the assignment in the second loop. *)
Definition second_run_str (prompt first_run_str_output : string) : string :=
  ((prompt +:+ (newline +:+ "The")) +:+ first_run_str_output) +:+ recall_str.

Definition second_run_strs (batch_size : nat)
    (str_prompts first_run_str_outputs : list string) : result (list string) :=
  for_range
    (fun i strs =>
       prompt ← getitem str_prompts i;
       output ← getitem first_run_str_outputs i;
       setitem strs i (second_run_str prompt output))
    0 batch_size (replicate batch_size EmptyString).

(** The last loop: one five-field list per batch element. *)
Definition trajectory (digit : Z) (prompt_1 output_1 prompt_2 output_2 : string)
  : list pyval :=
  [PInt digit; PStr prompt_1; PStr output_1; PStr prompt_2; PStr output_2].

Definition build_trajectories (batch_size : nat) (digits : list Z)
    (first_run_str_prompts first_run_str_outputs
     second_run_str_prompts second_run_str_outputs : list string)
  : result (list (list pyval)) :=
  for_range
    (fun i trajectories =>
       digit ← getitem digits i;
       prompt_1 ← getitem first_run_str_prompts i;
       output_1 ← getitem first_run_str_outputs i;
       prompt_2 ← getitem second_run_str_prompts i;
       output_2 ← getitem second_run_str_outputs i;
       Ok (trajectories ++ [trajectory digit prompt_1 output_1 prompt_2 output_2])%list)
    0 batch_size [].

(** [{k: first_run_stats[k] + second_run_stats[k] for k in first_run_stats}]
    over values with an addition [add]. *)
Definition sum_stats {V} (add : V -> V -> V) (first_run_stats second_run_stats : gmap string V)
  : result (gmap string V) :=
  map_fold
    (fun k v1 acc =>
       stats ← acc;
       match second_run_stats !! k with
       | Some v2 => Ok (<[k := add v1 v2]> stats)
       | None => Raise KeyError
       end)
    (Ok ∅) first_run_stats.

(** Modelled from the spec: the class [RunElementBatch] of
    [trlx.data.ppo_types] and its [__add__] are missing from the source.
    The record holds the six per-element fields that the docstring of the
    experience function lists; [T] is one element's tokens and [F] one
    element's numbers. *)
Record RunElementBatch (T F : Type) : Type := mkRunElementBatch {
  samples : list T;
  all_logprobs : list F;
  all_ref_logprobs : list F;
  query_tensors : list T;
  response_tensors : list T;
  all_values : list F;
}.
Arguments mkRunElementBatch {T F}.
Arguments samples {T F}.
Arguments all_logprobs {T F}.
Arguments all_ref_logprobs {T F}.
Arguments query_tensors {T F}.
Arguments response_tensors {T F}.
Arguments all_values {T F}.

(** Modelled from the spec: [RunElementBatch.__add__] is missing; every
    field of the combined record is the first record's sequence followed by
    the second record's. *)
Definition RunElementBatch_add {T F} (a b : RunElementBatch T F) : RunElementBatch T F :=
  {| samples := samples a ++ samples b;
     all_logprobs := all_logprobs a ++ all_logprobs b;
     all_ref_logprobs := all_ref_logprobs a ++ all_ref_logprobs b;
     query_tensors := query_tensors a ++ query_tensors b;
     response_tensors := response_tensors a ++ response_tensors b;
     all_values := all_values a ++ all_values b |}%list.

(** Every per-element field of a record has [n] elements. *)
Definition batch_of_size {T F} (n : nat) (d : RunElementBatch T F) : Prop :=
  length (samples d) = n /\ length (all_logprobs d) = n /\
  length (all_ref_logprobs d) = n /\ length (query_tensors d) = n /\
  length (response_tensors d) = n /\ length (all_values d) = n.

(** ** The experience function *)

(** A computation that reads and changes the state [W] outside the function
    (the global random generator of numpy, the trainer and its model) and
    may raise. *)
Definition M (W A : Type) : Type := W -> result A * W.

#[global] Instance M_ret {W} : MRet (M W) := fun _ a w => (Ok a, w).
#[global] Instance M_bind {W} : MBind (M W) := fun _ _ f m w =>
  match m w with
  | (Ok a, w') => f a w'
  | (Raise e, w') => (Raise e, w')
  end.

Definition lift {W A} (r : result A) : M W A := fun w => (r, w).

(** What the function uses of its surroundings: [np.random.randint] and
    the three operations of the trainer. *)
Record Env (W T F E V : Type) : Type := mkEnv {
  randint : Z -> Z -> nat -> M W (list Z);
  decode : list T -> list T -> M W (list string * list string);
  tokenizer : list string -> M W E;
  generate_and_calc_logprobs : E -> M W (RunElementBatch T F * gmap string V);
  add : V -> V -> V;
}.
Arguments mkEnv {W T F E V}.
Arguments randint {W T F E V}.
Arguments decode {W T F E V}.
Arguments tokenizer {W T F E V}.
Arguments generate_and_calc_logprobs {W T F E V}.
Arguments add {W T F E V}.

(** The local variables after the first run (up to the decoding of the
    first run's result). *)
Record first_run (T F V : Type) : Type := mkFirstRun {
  digits : list Z;
  str_prompts : list string;
  first_run_data : RunElementBatch T F;
  first_run_stats : gmap string V;
  first_run_str_prompts : list string;
  first_run_str_outputs : list string;
}.
Arguments mkFirstRun {T F V}.
Arguments digits {T F V}.
Arguments str_prompts {T F V}.
Arguments first_run_data {T F V}.
Arguments first_run_stats {T F V}.
Arguments first_run_str_prompts {T F V}.
Arguments first_run_str_outputs {T F V}.

Section Experience.
Context {W T F E V : Type}.
Variable env : Env W T F E V.

(** From the sampling of the digits to the decoding of the first run;
    [input_ids] is the batch, one token row per element, and stands for
    the local [query_tensors] as well. *)
Definition run_first (input_ids : list T) : M W (first_run T F V) :=
  let batch_size := length input_ids in
  digits ← randint env 0 2 batch_size;
  fact_strs ← lift (fact_strs batch_size digits);
  '(str_prompts, _) ← decode env input_ids input_ids;
  first_run_strs ← lift (first_run_strs batch_size fact_strs str_prompts);
  first_run_batch ← tokenizer env first_run_strs;
  '(first_run_data, first_run_stats) ← generate_and_calc_logprobs env first_run_batch;
  '(first_run_str_prompts, first_run_str_outputs) ←
    decode env (query_tensors first_run_data) (response_tensors first_run_data);
  mret (mkFirstRun digits str_prompts first_run_data first_run_stats
          first_run_str_prompts first_run_str_outputs).

(** The strings handed to the tokenizer for the second run. *)
Definition second_run_prompts (input_ids : list T) : M W (list string) :=
  r ← run_first input_ids;
  lift (second_run_strs (length input_ids) (str_prompts r) (first_run_str_outputs r)).

Definition encoder_decoder_experience_fn (input_ids : list T)
  : M W (list (list pyval) * RunElementBatch T F * gmap string V) :=
  let batch_size := length input_ids in
  r ← run_first input_ids;
  second_run_strs ←
    lift (second_run_strs batch_size (str_prompts r) (first_run_str_outputs r));
  second_run_batch ← tokenizer env second_run_strs;
  '(second_run_data, second_run_stats) ← generate_and_calc_logprobs env second_run_batch;
  '(second_run_str_prompts, second_run_str_outputs) ←
    decode env (query_tensors second_run_data) (response_tensors second_run_data);
  let data := RunElementBatch_add (first_run_data r) second_run_data in
  stats ← lift (sum_stats (add env) (first_run_stats r) second_run_stats);
  trajectories ←
    lift (build_trajectories batch_size (digits r)
            (first_run_str_prompts r) (first_run_str_outputs r)
            second_run_str_prompts second_run_str_outputs);
  mret (trajectories, data, stats).
End Experience.

(** * Properties *)

(** ** Loops *)

Lemma bind_ok {A B} (f : A -> result B) (a : A) : (Ok a ≫= f) = f a.
Proof. reflexivity. Qed.

Lemma bind_raise {A B} (f : A -> result B) (e : exn) : (Raise e ≫= f) = Raise e.
Proof. reflexivity. Qed.

Lemma getitem_ok {A} (xs : list A) (i : nat) (x : A) :
  xs !! i = Some x -> getitem xs i = Ok x.
Proof. intros H. unfold getitem. by rewrite H. Qed.

Lemma getitem_raise {A} (xs : list A) (i : nat) :
  (length xs <= i)%nat -> getitem xs i = Raise IndexError.
Proof. intros H. unfold getitem. by rewrite lookup_ge_None_2. Qed.

Lemma getitem_cases {A} (xs : list A) (i : nat) :
  getitem xs i = Raise IndexError \/ exists x, getitem xs i = Ok x.
Proof. unfold getitem. destruct (xs !! i); eauto. Qed.

Lemma setitem_ok {A} (xs : list A) (i : nat) (v : A) :
  (i < length xs)%nat -> setitem xs i v = Ok (<[i:=v]> xs).
Proof.
  intros H. unfold setitem.
  destruct (Nat.ltb_spec i (length xs)); [done | lia].
Qed.

(** A loop whose body appends one element per index. *)
Lemma for_range_append {A} (body : nat -> list A -> result (list A))
    (v : nat -> A) (n : nat) :
  forall (k : nat) (acc : list A),
    (forall i s, (k <= i < k + n)%nat -> body i s = Ok (s ++ [v i])) ->
    for_range body k n acc = Ok (acc ++ map v (seq k n)).
Proof.
  induction n as [|n IH]; intros k acc Hbody; simpl.
  - by rewrite app_nil_r.
  - rewrite Hbody by lia. rewrite bind_ok.
    rewrite IH by (intros; apply Hbody; lia).
    by rewrite <- app_assoc.
Qed.

(** A loop whose body assigns one slot per index. *)
Lemma for_range_assign {A} (body : nat -> list A -> result (list A))
    (v : nat -> A) (n : nat) :
  forall (k : nat) (strs : list A),
    length strs = (k + n)%nat ->
    (forall i s, (k <= i < k + n)%nat -> body i s = setitem s i (v i)) ->
    for_range body k n strs = Ok (take k strs ++ map v (seq k n)).
Proof.
  induction n as [|n IH]; intros k strs Hlen Hbody; simpl.
  - rewrite app_nil_r, take_ge by lia. done.
  - rewrite Hbody by lia. rewrite setitem_ok by lia. rewrite bind_ok.
    rewrite IH.
    + rewrite (take_S_r _ _ (v k)).
      * rewrite take_insert_ge by lia. by rewrite <- app_assoc.
      * apply list_lookup_insert_eq. lia.
    + rewrite length_insert. lia.
    + intros; apply Hbody; lia.
Qed.

(** A loop raises [e] as soon as its body does at one index, when the
    earlier indices return or raise [e] as well. *)
Lemma for_range_raises {S} (body : nat -> S -> result S) (e : exn) (j n : nat) :
  forall (k : nat) (s : S),
    (k <= j < k + n)%nat ->
    (forall s', body j s' = Raise e) ->
    (forall i s', (k <= i < j)%nat ->
                  body i s' = Raise e \/ exists s'', body i s' = Ok s'') ->
    for_range body k n s = Raise e.
Proof.
  induction n as [|n IH]; intros k s Hj Hat Hbefore; simpl; [lia|].
  destruct (decide (k = j)) as [->|Hne].
  - by rewrite Hat.
  - destruct (Hbefore k s) as [Hr | [s'' Hs'']]; [lia | by rewrite Hr |].
    rewrite Hs'', bind_ok. apply IH; [lia | done |].
    intros; apply Hbefore; lia.
Qed.

Lemma lookup_map_seq {A} (v : nat -> A) (k n i : nat) :
  (i < n)%nat -> map v (seq k n) !! i = Some (v (k + i)%nat).
Proof.
  intros Hi.
  change (map v (seq k n)) with (v <$> seq k n).
  rewrite list_lookup_fmap, lookup_seq_lt by done. done.
Qed.

(** ** The trajectory list *)

(** The trajectory of element [i], read off the five sequences. *)
Definition trajectory_at (digits : list Z) (p1 o1 p2 o2 : list string) (i : nat)
  : list pyval :=
  trajectory (digits !!! i) (p1 !!! i) (o1 !!! i) (p2 !!! i) (o2 !!! i).

Definition shortest (digits : list Z) (p1 o1 p2 o2 : list string) : nat :=
  Nat.min (length digits)
    (Nat.min (length p1) (Nat.min (length o1) (Nat.min (length p2) (length o2)))).

Lemma getitem_total `{Inhabited A} (xs : list A) (i : nat) :
  (i < length xs)%nat -> getitem xs i = Ok (xs !!! i).
Proof.
  intros Hi. apply getitem_ok. by apply list_lookup_lookup_total_lt.
Qed.

Lemma build_trajectories_enough (n : nat) (digits : list Z) (p1 o1 p2 o2 : list string) :
  (n <= shortest digits p1 o1 p2 o2)%nat ->
  build_trajectories n digits p1 o1 p2 o2
  = Ok (map (trajectory_at digits p1 o1 p2 o2) (seq 0 n)).
Proof.
  unfold shortest. intros Hn. unfold build_trajectories.
  rewrite (for_range_append _ (trajectory_at digits p1 o1 p2 o2)); [done|].
  intros i s Hi.
  rewrite !getitem_total by lia. done.
Qed.

Lemma build_trajectories_short (n : nat) (digits : list Z) (p1 o1 p2 o2 : list string) :
  (shortest digits p1 o1 p2 o2 < n)%nat ->
  build_trajectories n digits p1 o1 p2 o2 = Raise IndexError.
Proof.
  unfold shortest. intros Hn. unfold build_trajectories.
  remember (shortest digits p1 o1 p2 o2) as j eqn:Hj.
  unfold shortest in Hj.
  apply (for_range_raises _ _ j); [lia | |].
  - intros s'. cbv beta.
    destruct (decide (length digits <= j)%nat).
    { by rewrite (getitem_raise digits j) by done. }
    rewrite (getitem_total digits j) by lia. rewrite bind_ok.
    destruct (decide (length p1 <= j)%nat).
    { by rewrite (getitem_raise p1 j) by done. }
    rewrite (getitem_total p1 j) by lia. rewrite bind_ok.
    destruct (decide (length o1 <= j)%nat).
    { by rewrite (getitem_raise o1 j) by done. }
    rewrite (getitem_total o1 j) by lia. rewrite bind_ok.
    destruct (decide (length p2 <= j)%nat).
    { by rewrite (getitem_raise p2 j) by done. }
    rewrite (getitem_total p2 j) by lia. rewrite bind_ok.
    by rewrite (getitem_raise o2 j) by lia.
  - intros i s' Hi. right. cbv beta.
    rewrite !getitem_total by lia. eauto.
Qed.

(** C3. When each of the five sequences has one entry per batch element,
    the last loop of the experience function returns exactly [n]
    trajectories, and the trajectory of element [i] is the five-field list
    [[secret, stage-1 prompt, stage-1 output, stage-2 prompt, stage-2
    output]] of that element, whatever the strings are. *)
Theorem build_trajectories_shape (n : nat) (digits : list Z) (p1 o1 p2 o2 : list string) :
  length digits = n -> length p1 = n -> length o1 = n ->
  length p2 = n -> length o2 = n ->
  exists trajectories,
    build_trajectories n digits p1 o1 p2 o2 = Ok trajectories /\
    length trajectories = n /\
    (forall t, t ∈ trajectories -> length t = 5%nat) /\
    (forall i d a b c e,
        digits !! i = Some d -> p1 !! i = Some a -> o1 !! i = Some b ->
        p2 !! i = Some c -> o2 !! i = Some e ->
        trajectories !! i = Some [PInt d; PStr a; PStr b; PStr c; PStr e]).
Proof.
  intros H0 H1 H2 H3 H4.
  eexists. split; [apply build_trajectories_enough; unfold shortest; lia|].
  split; [by rewrite length_map, length_seq|].
  split.
  - intros t Ht. apply list_elem_of_fmap in Ht as (i & -> & _). done.
  - intros i d a b c e Hd Ha Hb Hc He.
    assert (i < n)%nat by (apply lookup_lt_Some in Hd; lia).
    rewrite lookup_map_seq by done. f_equal. unfold trajectory_at. simpl.
    by rewrite (list_lookup_total_correct _ _ _ Hd),
      (list_lookup_total_correct _ _ _ Ha), (list_lookup_total_correct _ _ _ Hb),
      (list_lookup_total_correct _ _ _ Hc), (list_lookup_total_correct _ _ _ He).
Qed.

Lemma build_trajectories_shape_witness :
  exists trajectories,
    build_trajectories 2 [0; 1] ["p"; "q"] ["a"; "b"] ["r"; "s"] ["1"; "0"]
    = Ok trajectories /\ length trajectories = 2%nat.
Proof.
  destruct (build_trajectories_shape 2 [0; 1] ["p"; "q"] ["a"; "b"]
              ["r"; "s"] ["1"; "0"]) as (t & Ht & Hl & _);
    [reflexivity .. |].
  exists t. split; assumption.
Defined.

(** C4, as the code has it. The loop compares no lengths. When one of the
    five sequences has fewer than [n] entries, indexing it raises
    [IndexError] and no trajectory list is produced (nothing is padded).
    When all have at least [n] entries the loop returns [n] trajectories
    built from the first [n] entries of each: entries past the batch size
    are not looked at. *)
Theorem build_trajectories_lengths (n : nat) (digits : list Z) (p1 o1 p2 o2 : list string) :
  ((shortest digits p1 o1 p2 o2 < n)%nat ->
   build_trajectories n digits p1 o1 p2 o2 = Raise IndexError) /\
  ((n <= shortest digits p1 o1 p2 o2)%nat ->
   exists trajectories,
     build_trajectories n digits p1 o1 p2 o2 = Ok trajectories /\
     length trajectories = n /\
     build_trajectories n (take n digits) (take n p1) (take n o1)
       (take n p2) (take n o2) = Ok trajectories).
Proof.
  split; [apply build_trajectories_short|].
  intros Hn. eexists. split; [by apply build_trajectories_enough|].
  split; [by rewrite length_map, length_seq|].
  unfold shortest in Hn.
  rewrite build_trajectories_enough
    by (unfold shortest; rewrite !length_take; lia).
  f_equal. apply map_ext_in. intros i Hi%in_seq.
  unfold trajectory_at.
  rewrite !lookup_total_take. case_decide; [done | lia].
Qed.

Lemma build_trajectories_lengths_witness :
  build_trajectories 2 [0; 1] ["p"] ["a"; "b"] ["r"; "s"] ["1"; "0"]
  = Raise IndexError.
Proof.
  apply (build_trajectories_lengths 2 [0; 1] ["p"] ["a"; "b"] ["r"; "s"] ["1"; "0"]).
  vm_compute. lia.
Defined.

(** C4 as stated fails: a sequence longer than the others is accepted and
    its extra entry is dropped without an error. *)
Lemma build_trajectories_truncates :
  length ["a"; "extra"] <> length [0] /\
  build_trajectories 1 [0] ["a"; "extra"] ["b"] ["c"] ["d"]
  = Ok [[PInt 0; PStr "a"; PStr "b"; PStr "c"; PStr "d"]].
Proof. split; [discriminate | reflexivity]. Qed.

(** ** The prompts of the second run *)

Lemma string_app_assoc (a b c : string) : (a +:+ b) +:+ c = a +:+ (b +:+ c).
Proof.
  induction a as [|x a IH]; [done|].
  change (String x ((a +:+ b) +:+ c) = String x (a +:+ (b +:+ c))).
  by rewrite IH.
Qed.

Lemma second_run_strs_enough (n : nat) (prompts outputs : list string) :
  (n <= length prompts)%nat -> (n <= length outputs)%nat ->
  second_run_strs n prompts outputs
  = Ok (map (fun i => second_run_str (prompts !!! i) (outputs !!! i)) (seq 0 n)).
Proof.
  intros Hp Ho. unfold second_run_strs.
  rewrite (for_range_assign _
             (fun i => second_run_str (prompts !!! i) (outputs !!! i))).
  - done.
  - by rewrite length_replicate.
  - intros i s Hi. by rewrite !getitem_total by lia.
Qed.

Lemma second_run_strs_short (n : nat) (prompts outputs : list string) :
  (Nat.min (length prompts) (length outputs) < n)%nat ->
  second_run_strs n prompts outputs = Raise IndexError.
Proof.
  intros Hn. unfold second_run_strs.
  remember (Nat.min (length prompts) (length outputs)) as j eqn:Hj.
  apply (for_range_raises _ _ j); [lia | |].
  - intros s'. cbv beta.
    destruct (decide (length prompts <= j)%nat).
    { by rewrite (getitem_raise prompts j) by done. }
    rewrite (getitem_total prompts j) by lia. rewrite bind_ok.
    by rewrite (getitem_raise outputs j) by lia.
  - intros i s' Hi. cbv beta.
    rewrite !getitem_total by lia. rewrite !bind_ok.
    unfold setitem. destruct (i <? length s')%nat; eauto.
Qed.

(** What a returned list of second-run prompts holds at each index. *)
Lemma second_run_strs_lookup (n : nat) (prompts outputs strs : list string) (i : nat) :
  second_run_strs n prompts outputs = Ok strs ->
  (i < n)%nat ->
  exists prompt output,
    prompts !! i = Some prompt /\ outputs !! i = Some output /\
    strs !! i = Some (second_run_str prompt output).
Proof.
  intros Hrun Hi.
  destruct (decide (Nat.min (length prompts) (length outputs) < n)%nat) as [Hs|Hs].
  { by rewrite second_run_strs_short in Hrun. }
  rewrite second_run_strs_enough in Hrun by lia.
  injection Hrun as <-.
  exists (prompts !!! i), (outputs !!! i).
  split; [apply list_lookup_lookup_total_lt; lia|].
  split; [apply list_lookup_lookup_total_lt; lia|].
  by rewrite lookup_map_seq.
Qed.

(** C9. The second loop is defined on every stage-1 output, the empty
    string included: with one prompt and one output per batch element it
    returns one string per element, and where the first run's output is
    empty that string is the prompt followed by the fixed text (a newline
    and [The], then the recall question). *)
Theorem second_run_strs_empty_output (n : nat) (prompts outputs : list string) :
  length prompts = n -> length outputs = n ->
  exists strs,
    second_run_strs n prompts outputs = Ok strs /\
    length strs = n /\
    (forall i prompt,
        prompts !! i = Some prompt -> outputs !! i = Some EmptyString ->
        strs !! i = Some (prompt +:+ newline +:+ "The" +:+ recall_str)).
Proof.
  intros Hp Ho. eexists.
  split; [apply second_run_strs_enough; lia|].
  split; [by rewrite length_map, length_seq|].
  intros i prompt Hi Hempty.
  assert (i < n)%nat by (apply lookup_lt_Some in Hi; lia).
  rewrite lookup_map_seq by done. f_equal. simpl.
  rewrite (list_lookup_total_correct _ _ _ Hi),
    (list_lookup_total_correct _ _ _ Hempty).
  unfold second_run_str.
  rewrite !string_app_assoc. reflexivity.
Qed.

Lemma second_run_strs_empty_output_witness :
  exists strs,
    second_run_strs 2 ["Roses are red"; "Violets"] [EmptyString; " are blue"]
    = Ok strs /\ length strs = 2%nat.
Proof.
  destruct (second_run_strs_empty_output 2 ["Roses are red"; "Violets"]
              [EmptyString; " are blue"]) as (strs & H1 & H2 & _);
    [reflexivity | reflexivity |].
  exists strs. split; assumption.
Defined.

(** C10. Take two runs of the experience function, in any two
    surroundings and with whatever digits each of them sampled. If both
    reach the second run and, for a batch element [i], they agree on the
    decoded prompt and on the decoded output of the first run, then the
    prompt composed for [i] in the second run is the same string in both:
    it is made of these two strings and the fixed text only. *)
Theorem second_run_prompt_ignores_digit {W T F E V : Type}
    (env1 env2 : Env W T F E V) (ids1 ids2 : list T) (w1 w2 w1' w2' w1'' w2'' : W)
    (r1 r2 : first_run T F V) (strs1 strs2 : list string)
    (i : nat) (prompt output : string) :
  run_first env1 ids1 w1 = (Ok r1, w1') ->
  run_first env2 ids2 w2 = (Ok r2, w2') ->
  second_run_prompts env1 ids1 w1 = (Ok strs1, w1'') ->
  second_run_prompts env2 ids2 w2 = (Ok strs2, w2'') ->
  (i < length ids1)%nat -> (i < length ids2)%nat ->
  str_prompts r1 !! i = Some prompt -> str_prompts r2 !! i = Some prompt ->
  first_run_str_outputs r1 !! i = Some output ->
  first_run_str_outputs r2 !! i = Some output ->
  strs1 !! i = strs2 !! i /\
  strs1 !! i = Some (prompt +:+ newline +:+ "The" +:+ output +:+ recall_str).
Proof.
  intros Hr1 Hr2 Hs1 Hs2 Hi1 Hi2 Hp1 Hp2 Ho1 Ho2.
  unfold second_run_prompts, mbind, M_bind in Hs1, Hs2.
  rewrite Hr1 in Hs1. rewrite Hr2 in Hs2.
  unfold lift in Hs1, Hs2.
  injection Hs1 as Hs1 _. injection Hs2 as Hs2 _.
  destruct (second_run_strs_lookup _ _ _ _ i Hs1 Hi1) as (a1 & b1 & Ha1 & Hb1 & ->).
  destruct (second_run_strs_lookup _ _ _ _ i Hs2 Hi2) as (a2 & b2 & Ha2 & Hb2 & ->).
  assert (a1 = prompt) as -> by congruence.
  assert (a2 = prompt) as -> by congruence.
  assert (b1 = output) as -> by congruence.
  assert (b2 = output) as -> by congruence.
  split; [done|].
  unfold second_run_str. by rewrite !string_app_assoc.
Qed.

(** ** The summed statistics *)

(** The sums over the keys that both dictionaries have. *)
Definition sums {V} (add : V -> V -> V) (first second : gmap string V) : gmap string V :=
  intersection_with (fun v1 v2 => Some (add v1 v2)) first second.

Lemma sums_insert {V} (add : V -> V -> V) (first second : gmap string V) k v1 v2 :
  second !! k = Some v2 ->
  sums add (<[k:=v1]> first) second = <[k:=add v1 v2]> (sums add first second).
Proof.
  intros Hk. apply map_eq. intros j. unfold sums.
  destruct (decide (k = j)) as [->|Hne].
  - rewrite lookup_intersection_with, !lookup_insert_eq, Hk. done.
  - rewrite lookup_insert_ne by done.
    rewrite !lookup_intersection_with, lookup_insert_ne by done. done.
Qed.

Lemma sum_stats_decide {V} (add : V -> V -> V) (first second : gmap string V) :
  sum_stats add first second
  = if decide (dom first ⊆ dom second) then Ok (sums add first second)
    else Raise KeyError.
Proof.
  unfold sum_stats.
  match goal with |- map_fold ?f ?b _ = _ => set (body := f) end.
  refine (map_fold_weak_ind
            (fun r (m : gmap string V) =>
               r = if decide (dom m ⊆ dom second) then Ok (sums add m second)
                   else Raise KeyError) body (Ok ∅) _ _ first); unfold body.
  - rewrite decide_True by set_solver.
    f_equal. unfold sums. apply map_eq. intros j.
    by rewrite lookup_intersection_with, lookup_empty.
  - intros k v1 m r Hfresh ->.
    assert (Hdom : dom (<[k:=v1]> m) = {[k]} ∪ dom m) by apply dom_insert_L.
    destruct (second !! k) as [v2|] eqn:Hk.
    + assert (Hin : k ∈ dom second) by (apply elem_of_dom; eauto).
      destruct (decide (dom m ⊆ dom second)) as [Hsub|Hsub].
      * assert (Hall : dom (<[k:=v1]> m) ⊆ dom second).
        { rewrite Hdom. apply union_subseteq. split; [|done].
          by apply singleton_subseteq_l. }
        rewrite decide_True by done.
        rewrite bind_ok. by rewrite (sums_insert _ _ _ _ _ v2).
      * assert (Hnot : ~ dom (<[k:=v1]> m) ⊆ dom second).
        { rewrite Hdom. intros Hall. apply Hsub.
          etrans; [apply union_subseteq_r | exact Hall]. }
        by rewrite decide_False by done.
    + assert (Hnot : ~ dom (<[k:=v1]> m) ⊆ dom second).
      { rewrite Hdom. intros Hall.
        apply not_elem_of_dom in Hk. apply Hk, Hall.
        apply elem_of_union_l. by apply elem_of_singleton. }
      destruct (decide (dom m ⊆ dom second));
        by rewrite decide_False by done.
Qed.

(** C5, as the code has it. The dictionary is built over the keys of the
    first run's statistics only. When every such key is also a key of the
    second run's statistics (in particular when the two key sets are the
    same) the result has the first run's key set and each value is the sum
    of the two values for that key; keys that only the second run reports
    are left out. When a key of the first run is missing from the second,
    the lookup raises [KeyError] and there is no result. *)
Theorem sum_stats_keys {V} (add : V -> V -> V) (first second : gmap string V) :
  (dom first ⊆ dom second ->
   exists stats,
     sum_stats add first second = Ok stats /\
     dom stats = dom first /\
     (forall k v1 v2, first !! k = Some v1 -> second !! k = Some v2 ->
                      stats !! k = Some (add v1 v2))) /\
  (~ dom first ⊆ dom second -> sum_stats add first second = Raise KeyError).
Proof.
  rewrite sum_stats_decide. split.
  - intros Hsub. rewrite decide_True by done. eexists. split; [done|].
    split.
    + apply set_eq. intros k. unfold sums.
      rewrite !elem_of_dom, lookup_intersection_with.
      split.
      * destruct (first !! k); [eauto | by intros [? ?]].
      * intros [v1 Hv1].
        assert (is_Some (second !! k)) as [v2 Hv2].
        { apply elem_of_dom, Hsub, elem_of_dom. eauto. }
        rewrite Hv1, Hv2. eauto.
    + intros k v1 v2 H1 H2. unfold sums.
      by rewrite lookup_intersection_with, H1, H2.
  - intros Hsub. by rewrite decide_False.
Qed.

Lemma sum_stats_keys_witness :
  exists stats,
    sum_stats Z.add {["kl" := 1]} {["kl" := 2]} = Ok stats /\
    stats !! "kl" = Some 3.
Proof.
  destruct (sum_stats_keys Z.add {["kl" := 1]} {["kl" := 2]}) as [H _].
  destruct H as (stats & Hs & _ & Hv); [set_solver|].
  exists stats. split; [exact Hs|].
  apply (Hv "kl" 1 2); reflexivity.
Defined.

(** C5 as stated fails: two key sets that differ are merged without an
    error when the extra key is reported by the second run only, and that
    key is dropped. *)
Lemma sum_stats_drops_key :
  dom ({["kl" := 1]} : gmap string Z) <> dom ({["kl" := 2; "loss" := 5]} : gmap string Z) /\
  sum_stats Z.add {["kl" := 1]} {["kl" := 2; "loss" := 5]} = Ok {["kl" := 3]}.
Proof.
  split.
  - intros Heq.
    assert (H : "loss" ∈ dom ({["kl" := 2; "loss" := 5]} : gmap string Z)) by set_solver.
    rewrite <- Heq in H. set_solver.
  - vm_compute. reflexivity.
Qed.

(** ** The combined batch *)

(** C7. For two records whose fields all have [n] elements, every field
    of the combined record is the first record's sequence followed by the
    second record's, and so has [2 * n] elements. *)
Theorem RunElementBatch_add_fields {T F : Type} (n : nat) (a b : RunElementBatch T F) :
  batch_of_size n a -> batch_of_size n b ->
  let data := RunElementBatch_add a b in
  samples data = samples a ++ samples b /\
  all_logprobs data = all_logprobs a ++ all_logprobs b /\
  all_ref_logprobs data = all_ref_logprobs a ++ all_ref_logprobs b /\
  query_tensors data = query_tensors a ++ query_tensors b /\
  response_tensors data = response_tensors a ++ response_tensors b /\
  all_values data = all_values a ++ all_values b /\
  batch_of_size (2 * n) data.
Proof.
  intros (Ha1 & Ha2 & Ha3 & Ha4 & Ha5 & Ha6) (Hb1 & Hb2 & Hb3 & Hb4 & Hb5 & Hb6).
  intros data. unfold data, batch_of_size, RunElementBatch_add.
  cbn [samples all_logprobs all_ref_logprobs query_tensors response_tensors
         all_values].
  rewrite !length_app. repeat split; lia.
Qed.

Lemma RunElementBatch_add_fields_witness :
  batch_of_size 2
    (RunElementBatch_add (mkRunElementBatch [1%nat] [true] [true] [2%nat] [3%nat] [false])
       (mkRunElementBatch [4%nat] [false] [false] [5%nat] [6%nat] [true])).
Proof.
  apply (RunElementBatch_add_fields 1
           (mkRunElementBatch [1%nat] [true] [true] [2%nat] [3%nat] [false])
           (mkRunElementBatch [4%nat] [false] [false] [5%nat] [6%nat] [true]));
    repeat split.
Defined.

(** ** The reward *)

(** The rule of the design document, to compare [get_last_digit] with: the
    recalled value is the last whitespace-delimited token of the text read
    as a non-negative integer literal; [None] is the sentinel for a text
    that cannot be read. *)
Module Spec.



End Spec.

Lemma map_result_ok {A B} (f : A -> result B) (g : A -> B) (xs : list A) :
  Forall (fun x => f x = Ok (g x)) xs -> map_result f xs = Ok (g <$> xs).
Proof.
  induction 1 as [|x xs Hx _ IH]; simpl; [done|].
  by rewrite Hx, bind_ok, IH.
Qed.

Lemma for_each_ok {A} (body : A -> result unit) (xs : list A) :
  Forall (fun x => body x = Ok tt) xs -> for_each body xs = Ok tt.
Proof.
  induction 1 as [|x xs Hx _ IH]; simpl; [done|].
  by rewrite Hx, bind_ok.
Qed.

Lemma last_char_snoc (text : string) (c : ascii) :
  last_char (text +:+ String c EmptyString) = Some c.
Proof.
  induction text as [|x text IH]; [done|].
  change (last_char (String x (text +:+ String c EmptyString)) = Some c).
  simpl. rewrite IH.
  by destruct (text +:+ String c EmptyString).
Qed.

(** The recalled value for a text that ends in the character [c]. *)
Definition recalled (c : ascii) : Z :=
  if is_decimal_char c then digit_value c else -1.

Lemma get_last_digit_snoc (text : string) (c : ascii) :
  is_superscript_digit c = false ->
  get_last_digit (PStr (text +:+ String c EmptyString)) = Ok (recalled c).
Proof.
  intros Hc. unfold get_last_digit, subscript_last, str_last, recalled.
  rewrite last_char_snoc, bind_ok.
  unfold isdigit, int_of_digits, all_chars, isdigit_char. rewrite Hc.
  destruct (is_decimal_char c); simpl; [|done].
  f_equal.
Qed.

Lemma recalled_range (c : ascii) :
  recalled c = -1 \/ 0 <= recalled c <= 9.
Proof.
  unfold recalled, is_decimal_char, digit_value.
  destruct (Nat.leb_spec 48 (nat_of_ascii c)), (Nat.leb_spec (nat_of_ascii c) 57);
    simpl; lia.
Qed.

(** A row [[secret, prompt, text]] whose text is not empty and does not end
    in one of the superscripts U+00B2, U+00B3, U+00B9. *)
Definition scorable (row : list pyval) : Prop :=
  exists secret prompt text c,
    row = [secret; prompt; PStr (text +:+ String c EmptyString)] /\
    is_superscript_digit c = false.

(** The reward of a scorable row. *)
Definition row_reward (row : list pyval) : Z :=
  match row with
  | [secret; _; PStr text] =>
      match last_char text with
      | Some c => score secret (recalled c)
      | None => 0
      end
  | _ => 0
  end.

Lemma reward_fn_scorable (rows : list (list pyval)) :
  Forall scorable rows ->
  reward_fn (NdArray 3 rows) = Ok (row_reward <$> rows).
Proof.
  intros Hrows. unfold reward_fn. simpl rows_of.
  rewrite for_each_ok; cycle 1.
  { eapply Forall_impl; [exact Hrows|].
    by intros row (secret & prompt & text & c & -> & _). }
  rewrite bind_ok. unfold column.
  change (2 <? 3)%nat with true. change (0 <? 3)%nat with true. cbv iota.
  rewrite (map_result_ok (fun r => getitem r 2) (fun row => row !!! 2%nat)); cycle 1.
  { eapply Forall_impl; [exact Hrows|].
    by intros row (secret & prompt & text & c & -> & _). }
  rewrite bind_ok.
  rewrite (map_result_ok get_last_digit
             (fun v => match v with
                       | PStr text => default 0 (recalled <$> last_char text)
                       | PInt _ => 0
                       end)); cycle 1.
  { apply Forall_fmap. eapply Forall_impl; [exact Hrows|].
    intros row (secret & prompt & text & c & -> & Hc). simpl.
    change ([secret; prompt; PStr (text +:+ String c EmptyString)] !!! 2%nat)
      with (PStr (text +:+ String c EmptyString)).
    rewrite get_last_digit_snoc by done. by rewrite last_char_snoc. }
  rewrite bind_ok.
  rewrite (map_result_ok (fun r => getitem r 0) (fun row => row !!! 0%nat)); cycle 1.
  { eapply Forall_impl; [exact Hrows|].
    by intros row (secret & prompt & text & c & -> & _). }
  rewrite bind_ok. f_equal.
  rewrite zip_with_fmap_l, zip_with_fmap_r, zip_with_fmap_r, zip_with_diag.
  apply Forall_fmap_ext_1.
  eapply Forall_impl; [exact Hrows|].
  intros row (secret & prompt & text & c & -> & Hc).
  change (score secret
            (default 0 (recalled <$> last_char (text +:+ String c EmptyString)))
          = row_reward [secret; prompt; PStr (text +:+ String c EmptyString)]).
  unfold row_reward. by rewrite last_char_snoc.
Qed.




(** C2. The code does not do what the claim says. Handed trajectories of
    five fields, as its docstring describes them and as the experience
    function builds them, [reward_fn] raises [AssertionError] at the first
    of them, whatever its last field is, because it asserts that a
    trajectory has three fields. *)
Theorem reward_fn_five_fields (trajectories : pyobj) (sample : list pyval)
    (rest : list (list pyval)) :
  rows_of trajectories = sample :: rest ->
  length sample = 5%nat ->
  reward_fn trajectories = Raise AssertionError.
Proof.
  intros Hrows Hlen. unfold reward_fn. rewrite Hrows. simpl.
  by rewrite Hlen.
Qed.

Lemma reward_fn_five_fields_witness :
  reward_fn (PyList [trajectory 1 "p1" "o1" "p2" EmptyString]) = Raise AssertionError.
Proof.
  apply (reward_fn_five_fields _ (trajectory 1 "p1" "o1" "p2" EmptyString) []);
    reflexivity.
Defined.

(** On a Python list [reward_fn] never returns: the assertion fails, or the
    indexing [trajectories[:, 2]] raises [TypeError]. *)
Lemma reward_fn_list_raises (rows : list (list pyval)) :
  reward_fn (PyList rows) = Raise AssertionError \/
  reward_fn (PyList rows) = Raise TypeError.
Proof.
  unfold reward_fn. simpl rows_of.
  destruct (for_each _ rows) as [[]|e] eqn:Hloop; [by right|].
  left. simpl. f_equal.
  induction rows as [|row rows IH]; simpl in Hloop; [done|].
  destruct (length row =? 3)%nat; simpl in Hloop; [by apply IH | congruence].
Qed.

(** An empty text on an array of three columns: [sample[-1]] raises
    [IndexError]. A text that ends in a superscript digit: [isdigit]
    accepts the character and [int] raises [ValueError]. *)
Lemma reward_fn_malformed_text :
  reward_fn (NdArray 3 [[PInt 1; PStr "p"; PStr EmptyString]]) = Raise IndexError /\
  reward_fn (NdArray 3 [[PInt 1; PStr "p";
                         PStr ("x = " +:+ String (ascii_of_nat 178) EmptyString)]])
  = Raise ValueError /\
  reward_fn (NdArray 3 [[PInt 1; PStr "p"; PStr "?!"]]) = Ok [0] /\
  reward_fn (NdArray 3 [[PInt 1; PStr "p"; PStr "x = 12"]]) = Ok [0].
Proof. repeat split. Qed.

(** ** The fixed text of the second prompt *)

(** [needle in hay] on strings. *)
Fixpoint contains (needle hay : string) : bool :=
  String.prefix needle hay ||
  match hay with
  | EmptyString => false
  | String _ hay' => contains needle hay'
  end.

(** The two pieces of [second_run_str] that are not supplied. *)
Definition the_str : string := newline +:+ "The".

Fixpoint occurs (c : ascii) (hay : string) : bool :=
  match hay with
  | EmptyString => false
  | String h hay' => bool_decide (c = h) || occurs c hay'
  end.

Fixpoint adjacent (c1 c2 : ascii) (hay : string) : bool :=
  match hay with
  | String h1 ((String h2 _) as hay') =>
      (bool_decide (c1 = h1) && bool_decide (c2 = h2)) || adjacent c1 c2 hay'
  | _ => false
  end.

Lemma prefix_cons (c h : ascii) (r hay : string) :
  String.prefix (String c r) (String h hay) = true -> c = h /\ String.prefix r hay = true.
Proof. simpl. destruct (ascii_dec c h); [done | discriminate]. Qed.

Lemma contains_occurs (c : ascii) (r hay : string) :
  contains (String c r) hay = true -> occurs c hay = true.
Proof.
  induction hay as [|h hay IH]; [done|].
  intros [Hp|Hc]%orb_true_iff.
  - apply prefix_cons in Hp as [-> _].
    change (bool_decide (h = h) || occurs h hay = true).
    by rewrite bool_decide_eq_true_2.
  - change (bool_decide (c = h) || occurs c hay = true).
    rewrite (IH Hc). apply orb_true_r.
Qed.

Lemma adjacent_cons (c1 c2 h h2 : ascii) (hay : string) :
  adjacent c1 c2 (String h (String h2 hay))
  = (bool_decide (c1 = h) && bool_decide (c2 = h2)) || adjacent c1 c2 (String h2 hay).
Proof. reflexivity. Qed.

Lemma contains_adjacent (c1 c2 : ascii) (r hay : string) :
  contains (String c1 (String c2 r)) hay = true -> adjacent c1 c2 hay = true.
Proof.
  induction hay as [|h hay IH]; [done|].
  intros [Hp|Hc]%orb_true_iff.
  - apply prefix_cons in Hp as [-> Hp].
    destruct hay as [|h2 hay]; [by simpl in Hp|].
    apply prefix_cons in Hp as [-> _].
    rewrite adjacent_cons. by rewrite !bool_decide_eq_true_2.
  - specialize (IH Hc). destruct hay as [|h2 hay]; [done|].
    rewrite adjacent_cons, IH. apply orb_true_r.
Qed.

Lemma contains_str_of_int_recall_str (z : Z) :
  contains (str_of_int z) recall_str = true -> z = 0 \/ z = 1.
Proof.
  intros H. destruct z as [|p|p]; [by left | |].
  - unfold str_of_int in H. cbn [Z.to_int NilEmpty.string_of_int] in H.
    pose proof (Unsigned.of_to p) as Hp.
    pose proof (Unsigned.to_uint_nonnil p) as Hnil.
    destruct (Pos.to_uint p) as [|u|u|u|u|u|u|u|u|u|u]; [done|..];
      destruct u;
      try (apply contains_adjacent in H; vm_compute in H; discriminate H);
      try (apply contains_occurs in H; vm_compute in H; discriminate H);
      try discriminate Hp.
    right. vm_compute in Hp. by injection Hp as ->.
  - unfold str_of_int in H. cbn [Z.to_int NilEmpty.string_of_int] in H.
    apply contains_occurs in H. vm_compute in H. discriminate H.
Qed.

Lemma contains_str_of_int_the_str (z : Z) :
  contains (str_of_int z) the_str = false.
Proof.
  destruct (contains (str_of_int z) the_str) eqn:H; [|done].
  destruct z as [|p|p]; [done | |].
  - unfold str_of_int in H. cbn [Z.to_int NilEmpty.string_of_int] in H.
    pose proof (Unsigned.to_uint_nonnil p) as Hnil.
    destruct (Pos.to_uint p) as [|u|u|u|u|u|u|u|u|u|u]; [done|..];
      apply contains_occurs in H; vm_compute in H; discriminate H.
  - unfold str_of_int in H. cbn [Z.to_int NilEmpty.string_of_int] in H.
    apply contains_occurs in H. vm_compute in H. discriminate H.
Qed.

(** C6, as the code has it. The second prompt is the decoded prompt, the
    text [the_str], the first run's output and the text [recall_str], in
    this order. The first fixed text contains the decimal string of no
    integer. The recall question contains the decimal string of an integer
    exactly when that integer is 0 or 1: it names both values of the
    alphabet, the same two for every secret. *)
Theorem second_run_str_fixed_text (z : Z) (prompt output : string) :
  second_run_str prompt output = prompt +:+ the_str +:+ output +:+ recall_str /\
  contains (str_of_int z) the_str = false /\
  (contains (str_of_int z) recall_str = true <-> z = 0 \/ z = 1).
Proof.
  split; [unfold second_run_str, the_str; by rewrite !string_app_assoc|].
  split; [apply contains_str_of_int_the_str|].
  split; [apply contains_str_of_int_recall_str|].
  by intros [-> | ->].
Qed.

(** C6 as stated fails: for either secret, the recall question contains
    the secret's digit string. *)
Lemma recall_str_contains_secret :
  contains (str_of_int 0) recall_str = true /\
  contains (str_of_int 1) recall_str = true.
Proof. split; reflexivity. Qed.

(** ** A run with scripted surroundings *)

(** Surroundings for running the model: the state is the stream of digits
    that [randint] will hand out, a token row is the string it decodes to,
    the tokenizer keeps its strings, and the generator answers every query
    with the same text and reports one statistic. *)
Definition scripted_env (answer : string) : Env (list Z) string Z (list string) Z :=
  {| randint := fun _ _ n w => (Ok (take n w), drop n w);
     decode := fun queries responses w => (Ok (queries, responses), w);
     tokenizer := fun strs w => (Ok strs, w);
     generate_and_calc_logprobs := fun queries w =>
       (Ok ({| samples := queries;
               all_logprobs := (fun _ => 0) <$> queries;
               all_ref_logprobs := (fun _ => 0) <$> queries;
               query_tensors := queries;
               response_tensors := (fun _ => answer) <$> queries;
               all_values := (fun _ => 0) <$> queries |},
            {["kl" := 1]}), w);
     add := Z.add |}.

(** The experience function runs to its end in these surroundings and
    returns one five-field trajectory per prompt, a combined batch of twice
    the size and the summed statistics; [reward_fn] then rejects the
    trajectories it is given. *)
Lemma scripted_run :
  exists trajectories data stats w,
    encoder_decoder_experience_fn (scripted_env " 1") ["Roses"; "Violets"] [1; 0; 1]
    = (Ok (trajectories, data, stats), w) /\
    w = [1] /\
    (fun t => t !! 0%nat) <$> trajectories = [Some (PInt 1); Some (PInt 0)] /\
    (fun t => t !! 4%nat) <$> trajectories = [Some (PStr " 1"); Some (PStr " 1")] /\
    batch_of_size 4 data /\
    stats = {["kl" := 2]} /\
    reward_fn (PyList trajectories) = Raise AssertionError.
Proof.
  eexists _, _, _, _. split; [vm_compute; reflexivity|].
  repeat split.
Qed.

Lemma second_run_prompt_ignores_digit_witness :
  exists r1 r2 strs1 strs2,
    fst (run_first (scripted_env " sun") ["Roses"; "Violets"] [0; 1]) = Ok r1 /\
    fst (run_first (scripted_env " sun") ["Roses"; "Violets"] [1; 0]) = Ok r2 /\
    digits r1 !! 0%nat <> digits r2 !! 0%nat /\
    fst (second_run_prompts (scripted_env " sun") ["Roses"; "Violets"] [0; 1]) = Ok strs1 /\
    fst (second_run_prompts (scripted_env " sun") ["Roses"; "Violets"] [1; 0]) = Ok strs2 /\
    strs1 !! 0%nat = strs2 !! 0%nat.
Proof.
  eexists _, _, _, _.
  split; [vm_compute; reflexivity|].
  split; [vm_compute; reflexivity|].
  split; [discriminate|].
  split; [vm_compute; reflexivity|].
  split; [vm_compute; reflexivity|].
  eapply (second_run_prompt_ignores_digit
            (scripted_env " sun") (scripted_env " sun")
            ["Roses"; "Violets"] ["Roses"; "Violets"] [0; 1] [1; 0]
            _ _ _ _ _ _ _ _ 0 "Roses" " sun");
    try (vm_compute; reflexivity); simpl; lia.
Defined.

(** * Further properties *)

(** ** What [get_last_digit] returns and raises *)

Lemma last_char_None (s : string) : last_char s = None -> s = EmptyString.
Proof.
  induction s as [|x s IH]; [done|].
  simpl. destruct s; [done|]. intros H. by specialize (IH H).
Qed.

Lemma last_char_Some (s : string) (c : ascii) :
  last_char s = Some c -> exists text, s = text +:+ String c EmptyString.
Proof.
  induction s as [|x s IH]; [done|].
  simpl. destruct s as [|y s].
  - intros [= ->]. by exists EmptyString.
  - intros H. destruct (IH H) as [text Htext].
    exists (String x text). exact (f_equal (String x) Htext).
Qed.

Lemma superscript_not_decimal (c : ascii) :
  is_superscript_digit c = true -> is_decimal_char c = false.
Proof.
  unfold is_superscript_digit, is_decimal_char.
  intros H. apply andb_false_iff. right. apply Nat.leb_gt.
  apply orb_true_iff in H as [H|H]; [apply orb_true_iff in H as [H|H]|];
    apply Nat.eqb_eq in H; lia.
Qed.

Lemma get_last_digit_superscript (text : string) (c : ascii) :
  is_superscript_digit c = true ->
  get_last_digit (PStr (text +:+ String c EmptyString)) = Raise ValueError.
Proof.
  intros Hc. unfold get_last_digit, subscript_last, str_last.
  rewrite last_char_snoc, bind_ok.
  unfold isdigit, int_of_digits, all_chars, isdigit_char.
  by rewrite Hc, (superscript_not_decimal c Hc).
Qed.

Lemma get_last_digit_ok_inv (sample : pyval) (v : Z) :
  get_last_digit sample = Ok v ->
  exists text c,
    sample = PStr (text +:+ String c EmptyString) /\
    is_superscript_digit c = false.
Proof.
  destruct sample as [z|s]; [done|].
  destruct (last_char s) as [c|] eqn:Hlast.
  - destruct (last_char_Some s c Hlast) as [text ->].
    destruct (is_superscript_digit c) eqn:Hc.
    + by rewrite get_last_digit_superscript.
    + by exists text, c.
  - by rewrite (last_char_None s Hlast).
Qed.

(** X1. The behaviour of [get_last_digit] on a string over the code
    points below 256, which is what [reward_fn] hands it. It raises
    [IndexError] exactly on the empty string and [ValueError] exactly when
    the last character is one of the superscripts U+00B2, U+00B3, U+00B9,
    which [str.isdigit] accepts and [int] rejects; it raises nothing else.
    Otherwise it returns the value of the last character if that is one
    of the decimal digits 0 to 9, and [-1] if not, so a value between [-1]
    and [9]. *)
Theorem get_last_digit_cases (text : string) :
  match get_last_digit (PStr text) with
  | Ok v =>
      exists pre c,
        text = pre +:+ String c EmptyString /\
        is_superscript_digit c = false /\
        v = (if is_decimal_char c then digit_value c else -1) /\
        -1 <= v <= 9
  | Raise IndexError => text = EmptyString
  | Raise ValueError =>
      exists pre c,
        text = pre +:+ String c EmptyString /\
        is_superscript_digit c = true
  | Raise _ => False
  end.
Proof.
  destruct (last_char text) as [c|] eqn:Hlast.
  - destruct (last_char_Some text c Hlast) as [pre ->].
    destruct (is_superscript_digit c) eqn:Hc.
    + rewrite get_last_digit_superscript by done. by exists pre, c.
    + rewrite get_last_digit_snoc by done.
      exists pre, c. repeat split; try done;
        destruct (recalled_range c); unfold recalled in *; lia.
  - by rewrite (last_char_None text Hlast).
Qed.

(** X2. The result of [get_last_digit] on a non-empty string depends on
    its last character only: two texts that end in the same character are
    read alike, returned value or raised exception. *)
Theorem get_last_digit_last_char_only (text1 text2 : string) (c : ascii) :
  get_last_digit (PStr (text1 +:+ String c EmptyString))
  = get_last_digit (PStr (text2 +:+ String c EmptyString)).
Proof.
  destruct (is_superscript_digit c) eqn:Hc.
  - by rewrite !get_last_digit_superscript.
  - by rewrite !get_last_digit_snoc.
Qed.

(** ** An answer that ends in a number *)

Lemma string_of_uint_nonempty (d : Decimal.uint) :
  d <> Decimal.Nil -> NilEmpty.string_of_uint d <> EmptyString.
Proof. by destruct d. Qed.

Lemma last_char_cons (x : ascii) (s : string) :
  s <> EmptyString -> last_char (String x s) = last_char s.
Proof. by destruct s. Qed.

Lemma last_char_revapp (d acc : Decimal.uint) :
  acc <> Decimal.Nil ->
  last_char (NilEmpty.string_of_uint (Decimal.revapp d acc))
  = last_char (NilEmpty.string_of_uint acc).
Proof.
  revert acc. induction d as [|d IH|d IH|d IH|d IH|d IH|d IH|d IH|d IH|d IH|d IH];
    intros acc Hacc; [done|..];
    (cbn [Decimal.revapp]; rewrite IH by done;
     cbn [NilEmpty.string_of_uint];
     by apply last_char_cons, string_of_uint_nonempty).
Qed.

(** The character of the last decimal digit of [z]. *)
Definition last_digit_char (z : Z) : ascii :=
  ascii_of_nat (48 + Z.to_nat (Z.abs z mod 10)).

Lemma last_char_to_uint (p : positive) :
  last_char (NilEmpty.string_of_uint (Pos.to_uint p))
  = Some (last_digit_char (Z.pos p)).
Proof.
  pose proof (Unsigned.of_to p) as Hp.
  unfold Pos.to_uint in *. rewrite Unsigned.of_lu_rev in Hp.
  unfold Decimal.rev.
  assert (Hmod : forall k q, (k < 10)%N -> N.pos p = (k + 10 * q)%N ->
                             Z.abs (Z.pos p) mod 10 = Z.of_N k).
  { intros k q Hk Heq. rewrite Z.abs_eq by lia.
    assert (Z.pos p = Z.of_N k + 10 * Z.of_N q) as -> by lia.
    rewrite (Z.mul_comm 10 (Z.of_N q)), Z.mod_add by lia.
    apply Z.mod_small. lia. }
  unfold last_digit_char.
  destruct (Pos.to_little_uint p) as [|d|d|d|d|d|d|d|d|d|d];
    [discriminate Hp|..];
    cbn [Decimal.revapp]; rewrite last_char_revapp by done;
    cbn [Unsigned.of_lu] in Hp.
  - rewrite (Hmod 0%N (Unsigned.of_lu d)); [done | lia | lia].
  - rewrite (Hmod 1%N (Unsigned.of_lu d)); [done | lia | lia].
  - rewrite (Hmod 2%N (Unsigned.of_lu d)); [done | lia | lia].
  - rewrite (Hmod 3%N (Unsigned.of_lu d)); [done | lia | lia].
  - rewrite (Hmod 4%N (Unsigned.of_lu d)); [done | lia | lia].
  - rewrite (Hmod 5%N (Unsigned.of_lu d)); [done | lia | lia].
  - rewrite (Hmod 6%N (Unsigned.of_lu d)); [done | lia | lia].
  - rewrite (Hmod 7%N (Unsigned.of_lu d)); [done | lia | lia].
  - rewrite (Hmod 8%N (Unsigned.of_lu d)); [done | lia | lia].
  - rewrite (Hmod 9%N (Unsigned.of_lu d)); [done | lia | lia].
Qed.

Lemma last_char_str_of_int (z : Z) :
  last_char (str_of_int z) = Some (last_digit_char z).
Proof.
  destruct z as [|p|p]; [done | apply last_char_to_uint |].
  unfold str_of_int. cbn [Z.to_int NilEmpty.string_of_int].
  rewrite last_char_cons
    by apply string_of_uint_nonempty, Unsigned.to_uint_nonnil.
  apply last_char_to_uint.
Qed.

(** X3. What is read back from a number. When the text ends in the
    decimal string of an integer [z], as an f-string prints it,
    [get_last_digit] returns the last decimal digit of [z], that is
    [|z| mod 10], whatever precedes it: a digit from 0 to 9 is read back
    as itself, and a longer number only by its last digit. *)
Theorem get_last_digit_str_of_int (text : string) (z : Z) :
  get_last_digit (PStr (text +:+ str_of_int z)) = Ok (Z.abs z mod 10).
Proof.
  destruct (last_char_Some _ _ (last_char_str_of_int z)) as [pre ->].
  rewrite <- string_app_assoc.
  assert (Hlt : (48 + Z.to_nat (Z.abs z mod 10) < 256)%nat).
  { pose proof (Z.mod_pos_bound (Z.abs z) 10). lia. }
  assert (Hnat : nat_of_ascii (last_digit_char z)
                 = (48 + Z.to_nat (Z.abs z mod 10))%nat).
  { unfold last_digit_char. by apply nat_ascii_embedding. }
  assert (Hdec : is_decimal_char (last_digit_char z) = true).
  { unfold is_decimal_char. rewrite Hnat.
    pose proof (Z.mod_pos_bound (Z.abs z) 10).
    apply andb_true_iff. split; apply Nat.leb_le; lia. }
  rewrite get_last_digit_snoc.
  - unfold recalled. rewrite Hdec. f_equal. unfold digit_value. rewrite Hnat.
    pose proof (Z.mod_pos_bound (Z.abs z) 10). lia.
  - destruct (is_superscript_digit (last_digit_char z)) eqn:Hs; [|done].
    apply superscript_not_decimal in Hs. congruence.
Qed.

(** ** When [reward_fn] returns *)

Lemma bind_ok_inv {A B} (m : result A) (f : A -> result B) (b : B) :
  (m ≫= f) = Ok b -> exists a, m = Ok a /\ f a = Ok b.
Proof. destruct m as [a|e]; [by exists a | done]. Qed.

Lemma map_result_inv {A B} (f : A -> result B) (xs : list A) (ys : list B) :
  map_result f xs = Ok ys -> Forall2 (fun x y => f x = Ok y) xs ys.
Proof.
  revert ys. induction xs as [|x xs IH]; intros ys; simpl.
  - intros [= <-]. constructor.
  - intros (y & Hy & H)%bind_ok_inv.
    apply bind_ok_inv in H as (ys' & Hys & [= <-]).
    constructor; [done | by apply IH].
Qed.

Lemma for_each_assert {A} (p : A -> bool) (xs : list A) :
  for_each (fun x => py_assert (p x)) xs
  = if forallb p xs then Ok tt else Raise AssertionError.
Proof.
  induction xs as [|x xs IH]; simpl; [done|].
  destruct (p x); simpl; [exact IH | done].
Qed.

Lemma forallb_length_3 (rows : list (list pyval)) :
  forallb (fun r => (length r =? 3)%nat) rows = true <->
  forall row, row ∈ rows -> length row = 3%nat.
Proof.
  rewrite forallb_forall. split.
  - intros H row Hrow. apply Nat.eqb_eq, H. by apply list_elem_of_In.
  - intros H row Hrow. apply Nat.eqb_eq, H. by apply list_elem_of_In.
Qed.

Lemma score_0_1 (digit : pyval) (reconstructed_digit : Z) :
  score digit reconstructed_digit = 0 \/ score digit reconstructed_digit = 1.
Proof. unfold score. destruct (py_eq_int _ _); auto. Qed.

(** X4. On a Python list of lists, which is what the experience function
    returns, [reward_fn] never returns: it raises [AssertionError] when
    some trajectory does not have exactly three fields, and otherwise
    (the empty list included) [TypeError] at the indexing
    [trajectories[:, 2]]. *)
Theorem reward_fn_list (rows : list (list pyval)) :
  reward_fn (PyList rows)
  = if forallb (fun r => (length r =? 3)%nat) rows then Raise TypeError
    else Raise AssertionError.
Proof.
  unfold reward_fn. simpl rows_of. rewrite for_each_assert.
  by destruct (forallb _ rows).
Qed.

(** X5. The assertion comes first: when any trajectory, at any position,
    does not have exactly three fields, [reward_fn] raises
    [AssertionError], on a list and on an array alike and whatever the
    texts are (no text is parsed before all lengths are checked). *)
Theorem reward_fn_assertion (trajectories : pyobj) (row : list pyval) :
  row ∈ rows_of trajectories ->
  length row <> 3%nat ->
  reward_fn trajectories = Raise AssertionError.
Proof.
  intros Hrow Hlen. unfold reward_fn. rewrite for_each_assert.
  destruct (forallb _ (rows_of trajectories)) eqn:Hall; [|done].
  pose proof (proj1 (forallb_length_3 _) Hall row Hrow). done.
Qed.

Lemma reward_fn_assertion_witness :
  reward_fn (NdArray 3 [[PInt 1; PStr "p"; PStr "x = 1"]; [PInt 0; PStr "q"]])
  = Raise AssertionError.
Proof.
  apply (reward_fn_assertion _ [PInt 0; PStr "q"]).
  - apply list_elem_of_In. simpl. auto.
  - simpl. lia.
Defined.

(** X6. Whenever [reward_fn] returns, its argument is an array whose rows
    all have three fields, there is exactly one reward per row, and every
    reward is 0 or 1. *)
Theorem reward_fn_returns (trajectories : pyobj) (rewards : list Z) :
  reward_fn trajectories = Ok rewards ->
  (exists ncols rows, trajectories = NdArray ncols rows) /\
  (forall row, row ∈ rows_of trajectories -> length row = 3%nat) /\
  length rewards = length (rows_of trajectories) /\
  (forall r, r ∈ rewards -> r = 0 \/ r = 1).
Proof.
  unfold reward_fn. rewrite for_each_assert.
  destruct (forallb _ (rows_of trajectories)) eqn:Hall; [|done].
  rewrite bind_ok.
  intros (outputs & Hout & H)%bind_ok_inv.
  apply bind_ok_inv in H as (reconstructed & Hrec & H).
  apply bind_ok_inv in H as (ds & Hds & [= <-]).
  destruct trajectories as [rows|ncols rows]; [done|]. simpl rows_of in *.
  split; [by exists ncols, rows|].
  split; [exact (proj1 (forallb_length_3 _) Hall)|].
  unfold column in Hout, Hds.
  destruct (2 <? ncols)%nat; [|done]. destruct (0 <? ncols)%nat; [|done].
  apply map_result_inv, Forall2_length in Hout, Hrec, Hds.
  split.
  - rewrite length_zip_with. lia.
  - intros r Hr. apply list_elem_of_lookup in Hr as [i Hi].
    apply lookup_zip_with_Some in Hi as (d & v & -> & _ & _).
    apply score_0_1.
Qed.

Lemma reward_fn_returns_witness :
  length [1; 0] = length (rows_of (NdArray 3 [[PInt 1; PStr "p"; PStr "x = 1"];
                                              [PInt 0; PStr "q"; PStr "x = 1"]])).
Proof.
  apply (reward_fn_returns
           (NdArray 3 [[PInt 1; PStr "p"; PStr "x = 1"];
                       [PInt 0; PStr "q"; PStr "x = 1"]]) [1; 0]).
  reflexivity.
Defined.

(** X7. Take an array of three columns whose fields are integers and
    strings over the code points below 256. [reward_fn] returns on it
    exactly when the third field of every row is a non-empty string whose
    last character is not one of the superscripts U+00B2, U+00B3, U+00B9;
    one empty answer, or one integer in the text column, makes the call
    raise for the whole batch. *)
Theorem reward_fn_returns_iff (rows : list (list pyval)) :
  (exists rewards, reward_fn (NdArray 3 rows) = Ok rewards) <->
  (forall row, row ∈ rows -> scorable row).
Proof.
  split.
  - intros [rewards Hrun] row Hrow.
    unfold reward_fn in Hrun. rewrite for_each_assert in Hrun.
    simpl rows_of in Hrun.
    destruct (forallb _ rows) eqn:Hall; [|done].
    pose proof (proj1 (forallb_length_3 _) Hall row Hrow) as Hlen.
    rewrite bind_ok in Hrun.
    apply bind_ok_inv in Hrun as (outputs & Hout & H).
    apply bind_ok_inv in H as (reconstructed & Hrec & _).
    unfold column in Hout. change (2 <? 3)%nat with true in Hout.
    apply map_result_inv in Hout, Hrec.
    apply list_elem_of_lookup in Hrow as [i Hi].
    destruct (Forall2_lookup_l _ _ _ _ _ Hout Hi) as (o & Ho & Hget).
    destruct (Forall2_lookup_l _ _ _ _ _ Hrec Ho) as (v & _ & Hv).
    destruct (get_last_digit_ok_inv o v Hv) as (text & c & -> & Hc).
    destruct row as [|secret [|prompt [|third [|]]]]; try done.
    injection Hget as ->. by exists secret, prompt, text, c.
  - intros Hrows. exists (row_reward <$> rows).
    apply reward_fn_scorable. by apply Forall_forall.
Qed.

(** ** Substrings *)

Lemma string_app_nil_r (s : string) : s +:+ EmptyString = s.
Proof.
  induction s as [|x s IH]; [done|].
  exact (f_equal (String x) IH).
Qed.

Lemma string_app_cons (x : ascii) (a b : string) :
  String x a +:+ b = String x (a +:+ b).
Proof. reflexivity. Qed.

Lemma string_length_app (a b : string) :
  String.length (a +:+ b) = (String.length a + String.length b)%nat.
Proof.
  induction a as [|x a IH]; [done|].
  rewrite string_app_cons. simpl. by rewrite IH.
Qed.

Lemma prefix_iff (a b : string) :
  String.prefix a b = true <-> exists post, b = a +:+ post.
Proof.
  revert b. induction a as [|x a IH]; intros b.
  - split; [by exists b | by destruct b].
  - destruct b as [|y b].
    + split; [done | by intros [post Hpost]].
    + split.
      * intros [-> Hp]%prefix_cons. apply IH in Hp as [post ->].
        by exists post.
      * intros [post Hpost]. rewrite string_app_cons in Hpost.
        injection Hpost as -> ->. simpl.
        destruct (ascii_dec x x); [|done]. apply IH. by exists post.
Qed.

(** [contains] is the substring test: the needle occurs in the hay between
    some text before it and some text after it. *)
Lemma contains_iff (needle hay : string) :
  contains needle hay = true <-> exists pre post, hay = pre +:+ needle +:+ post.
Proof.
  induction hay as [|h hay IH].
  - change (contains needle EmptyString)
      with (String.prefix needle EmptyString || false).
    rewrite orb_false_r, prefix_iff. split.
    + intros [post Hpost]. by exists EmptyString, post.
    + intros (pre & post & H). destruct pre; [by exists post | done].
  - change (contains needle (String h hay))
      with (String.prefix needle (String h hay) || contains needle hay).
    rewrite orb_true_iff, prefix_iff, IH. split.
    + intros [[post Hpost] | (pre & post & ->)].
      * by exists EmptyString, post.
      * by exists (String h pre), post.
    + intros (pre & post & H). destruct pre as [|x pre].
      * left. by exists post.
      * right. rewrite string_app_cons in H. injection H as -> ->.
        by exists pre, post.
Qed.

Lemma contains_app (needle pre hay post : string) :
  contains needle hay = true ->
  contains needle (pre +:+ hay +:+ post) = true.
Proof.
  intros (a & b & ->)%contains_iff. apply contains_iff.
  exists (pre +:+ a), (b +:+ post). by rewrite !string_app_assoc.
Qed.

Lemma contains_refl (s : string) : contains s s = true.
Proof.
  apply contains_iff. exists EmptyString, EmptyString.
  by rewrite string_app_nil_r.
Qed.

(** ** The prompts of the first run *)

Lemma str_of_int_inj (z1 z2 : Z) : str_of_int z1 = str_of_int z2 -> z1 = z2.
Proof.
  unfold str_of_int. intros H.
  apply (f_equal NilEmpty.int_of_string) in H.
  rewrite !NilEmpty.isi in H. injection H as H.
  apply (f_equal Z.of_int) in H. by rewrite !DecimalZ.of_to in H.
Qed.

Lemma string_of_uint_no_newline (d : Decimal.uint) :
  occurs (ascii_of_nat 10) (NilEmpty.string_of_uint d) = false.
Proof. induction d; simpl; try done; by rewrite IHd. Qed.

Lemma str_of_int_no_newline (z : Z) :
  occurs (ascii_of_nat 10) (str_of_int z) = false.
Proof.
  unfold str_of_int. destruct (Z.to_int z) as [d|d]; simpl.
  - apply string_of_uint_no_newline.
  - apply string_of_uint_no_newline.
Qed.

(** Two strings cut at the first occurrence of [c] agree on both sides. *)
Lemma split_at_first (c : ascii) (a b x y : string) :
  occurs c a = false -> occurs c b = false ->
  a +:+ String c x = b +:+ String c y -> a = b /\ x = y.
Proof.
  revert b. induction a as [|h a IH]; intros b Ha Hb H.
  - destruct b as [|h' b].
    + by injection H as ->.
    + rewrite string_app_cons in H. injection H as -> _.
      simpl in Hb. by rewrite bool_decide_eq_true_2 in Hb.
  - destruct b as [|h' b].
    + rewrite string_app_cons in H. injection H as -> _.
      simpl in Ha. by rewrite bool_decide_eq_true_2 in Ha.
    + rewrite !string_app_cons in H. injection H as -> H.
      simpl in Ha, Hb.
      apply orb_false_iff in Ha as [_ Ha]. apply orb_false_iff in Hb as [_ Hb].
      destruct (IH b Ha Hb H) as [-> ->]. done.
Qed.

Lemma string_app_inj_r (a b s : string) : a +:+ s = b +:+ s -> a = b.
Proof.
  revert b. induction a as [|x a IH]; intros b H.
  - destruct b as [|y b]; [done|].
    apply (f_equal String.length) in H.
    rewrite !string_length_app in H. simpl in H. lia.
  - destruct b as [|y b].
    + apply (f_equal String.length) in H.
      rewrite !string_length_app in H. simpl in H. lia.
    + rewrite !string_app_cons in H. injection H as -> H.
      by rewrite (IH b H).
Qed.

(** X8. The prompt of the first run carries the secret: with one digit
    and one decoded prompt per batch element, the two steps that build
    the first run's strings return one string per element, and the string
    of element [i] is the fact line with digit [i] in decimal, the
    instruction line, an empty line, prompt [i] and [The] with a newline;
    it contains the digit's decimal string. *)
Theorem first_run_strs_digits (n : nat) (digits : list Z) (prompts : list string) :
  length digits = n -> length prompts = n ->
  exists facts strs,
    fact_strs n digits = Ok facts /\
    first_run_strs n facts prompts = Ok strs /\
    length strs = n /\
    (forall i d p,
        digits !! i = Some d -> prompts !! i = Some p ->
        strs !! i
        = Some ("Fact: x = " +:+ str_of_int d +:+ newline +:+ "Continue the poem:"
                  +:+ newline +:+ newline +:+ p +:+ "The" +:+ newline) /\
        exists s, strs !! i = Some s /\ contains (str_of_int d) s = true).
Proof.
  intros Hd Hp.
  set (facts := (fun i => fact_str (digits !!! i)) <$> seq 0 n).
  set (strs := (fun i => first_run_str (facts !!! i) (prompts !!! i)) <$> seq 0 n).
  assert (Hfacts : length facts = n) by (unfold facts; by rewrite length_fmap, length_seq).
  exists facts, strs.
  split.
  { unfold fact_strs. apply map_result_ok. apply Forall_forall.
    intros i Hi%list_elem_of_In%in_seq.
    by rewrite getitem_total by lia. }
  split.
  { unfold first_run_strs.
    rewrite (for_range_assign _
               (fun i => first_run_str (facts !!! i) (prompts !!! i))).
    - done.
    - by rewrite length_replicate.
    - intros i s Hi.
      rewrite (getitem_total facts i) by lia. rewrite bind_ok.
      rewrite (getitem_total prompts i) by lia. by rewrite bind_ok. }
  split; [unfold strs; by rewrite length_fmap, length_seq|].
  intros i d p Hdi Hpi.
  assert (Hi : (i < n)%nat) by (apply lookup_lt_Some in Hdi; lia).
  assert (Hfact : facts !!! i = fact_str d).
  { apply list_lookup_total_correct. unfold facts.
    rewrite list_lookup_fmap, lookup_seq_lt by done. simpl.
    by rewrite (list_lookup_total_correct _ _ _ Hdi). }
  assert (Hstr : strs !! i
                 = Some ("Fact: x = " +:+ str_of_int d +:+ newline
                           +:+ "Continue the poem:" +:+ newline +:+ newline
                           +:+ p +:+ "The" +:+ newline)).
  { unfold strs. rewrite list_lookup_fmap, lookup_seq_lt by done. simpl.
    rewrite Hfact, (list_lookup_total_correct _ _ _ Hpi). f_equal.
    unfold first_run_str, fact_str. by rewrite !string_app_assoc. }
  split; [exact Hstr|].
  eexists. split; [exact Hstr|].
  apply (contains_app _ "Fact: x = "). apply contains_refl.
Qed.

Lemma first_run_strs_digits_witness :
  exists facts strs,
    fact_strs 2 [0; 1] = Ok facts /\
    first_run_strs 2 facts ["Roses"; "Violets"] = Ok strs /\
    length strs = 2%nat.
Proof.
  destruct (first_run_strs_digits 2 [0; 1] ["Roses"; "Violets"])
    as (facts & strs & H1 & H2 & H3 & _); [reflexivity | reflexivity |].
  exists facts, strs. repeat split; assumption.
Defined.

(** X9. The prompt of the first run determines its two inputs: two
    elements get the same string only when they have the same digit and
    the same decoded prompt. *)
Theorem first_run_str_inj (d1 d2 : Z) (p1 p2 : string) :
  first_run_str (fact_str d1) p1 = first_run_str (fact_str d2) p2 ->
  d1 = d2 /\ p1 = p2.
Proof.
  unfold first_run_str, fact_str. rewrite !string_app_assoc.
  intros H. apply String.app_inj in H.
  assert (Hnl : forall x, newline +:+ x = String (ascii_of_nat 10) x) by done.
  rewrite !Hnl in H.
  apply split_at_first in H as [Hd H]; try apply str_of_int_no_newline.
  split; [by apply str_of_int_inj|].
  apply String.app_inj in H. injection H as H.
  by apply string_app_inj_r in H.
Qed.

Lemma first_run_str_inj_witness :
  0 = 0 /\ "Roses" = "Roses".
Proof.
  apply (first_run_str_inj 0 0 "Roses" "Roses"). reflexivity.
Defined.

(** ** The two prompt loops and the lengths of the decoded lists *)

(** A loop that fills slot [i] from entry [i] of two lists. *)
Lemma for_range_assign2 {A B C} `{Inhabited A, Inhabited B}
    (g : A -> B -> C) (xs : list A) (ys : list B) (n : nat) (init : C) :
  for_range
    (fun i strs => a ← getitem xs i; b ← getitem ys i; setitem strs i (g a b))
    0 n (replicate n init)
  = if decide (n <= length xs /\ n <= length ys)%nat
    then Ok ((fun i => g (xs !!! i) (ys !!! i)) <$> seq 0 n)
    else Raise IndexError.
Proof.
  case_decide as Hn.
  - rewrite (for_range_assign _ (fun i => g (xs !!! i) (ys !!! i))).
    + done.
    + by rewrite length_replicate.
    + intros i s Hi.
      rewrite (getitem_total xs i) by lia. rewrite bind_ok.
      rewrite (getitem_total ys i) by lia. by rewrite bind_ok.
  - remember (Nat.min (length xs) (length ys)) as j eqn:Hj.
    apply (for_range_raises _ _ j); [lia | |].
    + intros s'. cbv beta.
      destruct (decide (length xs <= j)%nat).
      { by rewrite (getitem_raise xs j) by done. }
      rewrite (getitem_total xs j) by lia. rewrite bind_ok.
      by rewrite (getitem_raise ys j) by lia.
    + intros i s' Hi. cbv beta.
      rewrite (getitem_total xs i) by lia. rewrite bind_ok.
      rewrite (getitem_total ys i) by lia. rewrite bind_ok.
      unfold setitem. destruct (i <? length s')%nat; eauto.
Qed.

(** X10. The two loops that compose the prompts check no lengths. Each
    returns exactly when both of its input lists have at least
    [batch_size] entries, and then returns [batch_size] strings made from
    the first [batch_size] entries of each; when the trainer's [decode]
    handed back a shorter list the loop raises [IndexError], and no list
    is padded or resized. *)
Theorem prompt_loops_lengths (n : nat) (xs ys : list string) :
  ((n <= length xs /\ n <= length ys)%nat ->
   exists strs1 strs2,
     first_run_strs n xs ys = Ok strs1 /\ length strs1 = n /\
     first_run_strs n (take n xs) (take n ys) = Ok strs1 /\
     second_run_strs n xs ys = Ok strs2 /\ length strs2 = n /\
     second_run_strs n (take n xs) (take n ys) = Ok strs2) /\
  (~ (n <= length xs /\ n <= length ys)%nat ->
   first_run_strs n xs ys = Raise IndexError /\
   second_run_strs n xs ys = Raise IndexError).
Proof.
  unfold first_run_strs, second_run_strs. rewrite !for_range_assign2.
  split.
  - intros Hn. rewrite !decide_True by (rewrite ?length_take; lia).
    assert (Hext : forall g : string -> string -> string,
               (fun i => g (take n xs !!! i) (take n ys !!! i)) <$> seq 0 n
               = (fun i => g (xs !!! i) (ys !!! i)) <$> seq 0 n).
    { intros g. apply list_fmap_ext. intros i j Hj%lookup_seq.
      rewrite !lookup_total_take. case_decide; [done | lia]. }
    eexists _, _.
    repeat split; try done; rewrite ?Hext; try done;
      by rewrite length_fmap, length_seq.
  - intros Hn. by rewrite !decide_False by done.
Qed.

Lemma prompt_loops_lengths_witness :
  first_run_strs 2 ["f0"; "f1"] ["Roses"] = Raise IndexError /\
  second_run_strs 2 ["f0"; "f1"] ["Roses"] = Raise IndexError.
Proof.
  apply (prompt_loops_lengths 2 ["f0"; "f1"] ["Roses"]).
  simpl. lia.
Defined.

(** X11. Everything the first run wrote reaches the second prompt: a
    string that occurs in the decoded prompt or in the first run's output
    occurs in the prompt composed for the second run. In particular a
    digit that the first run's output spells out is in the second
    prompt. *)
Theorem second_run_str_contains (needle prompt output : string) :
  contains needle prompt = true \/ contains needle output = true ->
  contains needle (second_run_str prompt output) = true.
Proof.
  unfold second_run_str. intros [H|H].
  - rewrite !string_app_assoc.
    rewrite <- (string_app_nil_r prompt) at 1. fold (EmptyString +:+ prompt).
    change (contains needle
              (EmptyString +:+ (prompt +:+ EmptyString)
                 +:+ (newline +:+ "The") +:+ output +:+ recall_str) = true).
    rewrite string_app_nil_r. by apply (contains_app _ EmptyString).
  - rewrite string_app_assoc. by apply contains_app.
Qed.

Lemma second_run_str_contains_witness :
  contains "1" (second_run_str "Roses" " one is 1 ") = true.
Proof.
  apply (second_run_str_contains "1" "Roses" " one is 1 ").
  right. reflexivity.
Defined.

(** ** The order of the two statistics *)

Lemma sums_comm {V} (add : V -> V -> V) (a b : gmap string V) :
  (forall x y, add x y = add y x) -> sums add a b = sums add b a.
Proof.
  intros Hadd. apply map_eq. intros k. unfold sums.
  rewrite !lookup_intersection_with.
  destruct (a !! k), (b !! k); simpl; try done. by rewrite Hadd.
Qed.

(** X12. With a commutative addition, two statistics over the same keys
    sum to the same dictionary in either order. *)
Theorem sum_stats_comm {V} (add : V -> V -> V) (a b : gmap string V) :
  (forall x y, add x y = add y x) ->
  dom a = dom b ->
  sum_stats add a b = sum_stats add b a /\
  exists stats, sum_stats add a b = Ok stats.
Proof.
  intros Hadd Hdom. rewrite !sum_stats_decide.
  rewrite !decide_True by (by rewrite Hdom).
  split; [by rewrite (sums_comm add a b) | eauto].
Qed.

Lemma sum_stats_comm_witness :
  sum_stats Z.add {["kl" := 1; "loss" := 2]} {["kl" := 5; "loss" := 7]}
  = sum_stats Z.add {["kl" := 5; "loss" := 7]} {["kl" := 1; "loss" := 2]}.
Proof.
  apply (sum_stats_comm Z.add); [intros; lia | reflexivity].
Defined.

(** X13. The order of the two statistics matters when the key sets
    differ: if the second run reports every key of the first and at least
    one more, the sum as the code takes it succeeds, and the sum with the
    two runs swapped raises [KeyError]. *)
Theorem sum_stats_order {V} (add : V -> V -> V) (a b : gmap string V) :
  dom a ⊂ dom b ->
  (exists stats, sum_stats add a b = Ok stats /\ dom stats = dom a) /\
  sum_stats add b a = Raise KeyError.
Proof.
  intros [Hsub Hnot]. rewrite !sum_stats_decide.
  rewrite decide_True by done. rewrite decide_False by done.
  split; [|done]. eexists. split; [done|].
  apply set_eq. intros k. unfold sums.
  rewrite !elem_of_dom, lookup_intersection_with. split.
  - destruct (a !! k); [eauto | by intros [? ?]].
  - intros [v1 Hv1].
    assert (is_Some (b !! k)) as [v2 Hv2].
    { apply elem_of_dom, Hsub, elem_of_dom. eauto. }
    rewrite Hv1, Hv2. eauto.
Qed.

Lemma sum_stats_order_witness :
  sum_stats Z.add {["kl" := 2; "loss" := 5]} {["kl" := 1]} = Raise KeyError.
Proof.
  apply (sum_stats_order Z.add {["kl" := 1]} {["kl" := 2; "loss" := 5]}).
  split.
  - intros k Hk. apply elem_of_dom in Hk as [v Hv].
    apply elem_of_dom. destruct (decide (k = "kl")) as [->|Hne].
    + by exists 2.
    + by rewrite lookup_singleton_ne in Hv.
  - intros Hsub.
    assert (Hin : "loss" ∈ dom ({["kl" := 1]} : gmap string Z)).
    { apply Hsub, elem_of_dom. by exists 5. }
    apply elem_of_dom in Hin as [v Hv]. by vm_compute in Hv.
Defined.

(** ** A whole step *)

Lemma M_bind_inv {W A B} (m : M W A) (f : A -> M W B) (w w' : W) (b : B) :
  (m ≫= f) w = (Ok b, w') ->
  exists a w1, m w = (Ok a, w1) /\ f a w1 = (Ok b, w').
Proof.
  unfold mbind, M_bind. destruct (m w) as [[a|e] w1]; [|done].
  intros H. by exists a, w1.
Qed.

Lemma lift_inv {W A} (r : result A) (w w' : W) (a : A) :
  lift r w = (Ok a, w') -> r = Ok a /\ w' = w.
Proof. unfold lift. by intros [= -> ->]. Qed.

Lemma build_trajectories_inv (n : nat) (digits : list Z) (p1 o1 p2 o2 : list string)
    (trajectories : list (list pyval)) :
  build_trajectories n digits p1 o1 p2 o2 = Ok trajectories ->
  (n <= shortest digits p1 o1 p2 o2)%nat /\
  trajectories = trajectory_at digits p1 o1 p2 o2 <$> seq 0 n.
Proof.
  intros H.
  destruct (decide (shortest digits p1 o1 p2 o2 < n)%nat) as [Hs|Hs].
  { by rewrite build_trajectories_short in H. }
  rewrite build_trajectories_enough in H by lia.
  injection H as <-. split; [lia | done].
Qed.

(** What a returned step is made of. *)
Lemma experience_fn_inv {W T F E V : Type} (env : Env W T F E V)
    (input_ids : list T) (w w' : W) (trajectories : list (list pyval))
    (data : RunElementBatch T F) (stats : gmap string V) :
  encoder_decoder_experience_fn env input_ids w = (Ok (trajectories, data, stats), w') ->
  exists (r : first_run T F V) (w1 : W) (second_run_data : RunElementBatch T F)
         (second_run_stats : gmap string V) (p2 o2 : list string),
    run_first env input_ids w = (Ok r, w1) /\
    data = RunElementBatch_add (first_run_data r) second_run_data /\
    sum_stats (add env) (first_run_stats r) second_run_stats = Ok stats /\
    build_trajectories (length input_ids) (digits r) (first_run_str_prompts r)
      (first_run_str_outputs r) p2 o2 = Ok trajectories.
Proof.
  unfold encoder_decoder_experience_fn. intros H.
  apply M_bind_inv in H as (r & w1 & Hr & H).
  apply M_bind_inv in H as (strs & w2 & _ & H).
  apply M_bind_inv in H as (batch2 & w3 & _ & H).
  apply M_bind_inv in H as ([data2 stats2] & w4 & _ & H).
  apply M_bind_inv in H as ([p2 o2] & w5 & _ & H).
  apply M_bind_inv in H as (stats' & w6 & [Hstats ->]%lift_inv & H).
  apply M_bind_inv in H as (trajs' & w7 & [Htrajs ->]%lift_inv & H).
  injection H as <- <- <- <-.
  by exists r, w1, data2, stats2, p2, o2.
Qed.

Lemma reward_fn_assert_fails (trajectories : pyobj) :
  forallb (fun r => (length r =? 3)%nat) (rows_of trajectories) = false ->
  reward_fn trajectories = Raise AssertionError.
Proof.
  intros H. unfold reward_fn. by rewrite for_each_assert, H.
Qed.

(** X14. A step that returns keeps the batch aligned. It returns exactly
    one trajectory per row of [input_ids]; trajectory [i] has five fields,
    an integer and four strings, and its first three fields are digit
    [i] that was sampled at the start of the step and the decoded prompt
    and output [i] of the first run. The returned statistics have the
    keys of the first run's statistics. *)
Theorem experience_fn_trajectories {W T F E V : Type} (env : Env W T F E V)
    (input_ids : list T) (w w' : W) (trajectories : list (list pyval))
    (data : RunElementBatch T F) (stats : gmap string V) :
  encoder_decoder_experience_fn env input_ids w = (Ok (trajectories, data, stats), w') ->
  length trajectories = length input_ids /\
  exists (r : first_run T F V) (w1 : W),
    run_first env input_ids w = (Ok r, w1) /\
    dom stats = dom (first_run_stats r) /\
    forall i, (i < length input_ids)%nat ->
      exists d p1 o1 p2 o2,
        digits r !! i = Some d /\
        first_run_str_prompts r !! i = Some p1 /\
        first_run_str_outputs r !! i = Some o1 /\
        trajectories !! i = Some [PInt d; PStr p1; PStr o1; PStr p2; PStr o2].
Proof.
  intros H.
  apply experience_fn_inv in H
    as (r & w1 & data2 & stats2 & p2 & o2 & Hr & _ & Hstats & Htrajs).
  apply build_trajectories_inv in Htrajs as [Hn ->].
  split; [by rewrite length_fmap, length_seq|].
  exists r, w1. split; [done|]. split.
  - rewrite sum_stats_decide in Hstats.
    case_decide as Hsub; [|done]. injection Hstats as <-.
    apply set_eq. intros k. unfold sums.
    rewrite !elem_of_dom, lookup_intersection_with. split.
    + destruct (first_run_stats r !! k); [eauto | by intros [? ?]].
    + intros [v1 Hv1].
      assert (is_Some (stats2 !! k)) as [v2 Hv2].
      { apply elem_of_dom, Hsub, elem_of_dom. eauto. }
      rewrite Hv1, Hv2. eauto.
  - intros i Hi. unfold shortest in Hn.
    exists (digits r !!! i), (first_run_str_prompts r !!! i),
      (first_run_str_outputs r !!! i), (p2 !!! i), (o2 !!! i).
    split; [apply list_lookup_lookup_total_lt; lia|].
    split; [apply list_lookup_lookup_total_lt; lia|].
    split; [apply list_lookup_lookup_total_lt; lia|].
    by rewrite list_lookup_fmap, lookup_seq_lt.
Qed.

Lemma experience_fn_trajectories_witness :
  exists trajectories,
    fst (encoder_decoder_experience_fn (scripted_env " 1") ["Roses"; "Violets"] [1; 0; 1])
    = Ok trajectories /\
    length trajectories.1.1 = 2%nat.
Proof.
  eexists. split; [vm_compute; reflexivity|].
  eapply (experience_fn_trajectories (scripted_env " 1") ["Roses"; "Violets"] [1; 0; 1]).
  vm_compute. reflexivity.
Defined.

(** X15. The two functions of the file do not fit together: whatever
    the surroundings, the trajectories that a step returns are rejected by
    [reward_fn]. As the list they are built as, the call raises
    [AssertionError] for a non-empty batch and [TypeError] for an empty
    one; turned into an array of five columns, a non-empty batch still
    raises [AssertionError]. *)
Theorem reward_fn_rejects_experience {W T F E V : Type} (env : Env W T F E V)
    (input_ids : list T) (w w' : W) (trajectories : list (list pyval))
    (data : RunElementBatch T F) (stats : gmap string V) :
  encoder_decoder_experience_fn env input_ids w = (Ok (trajectories, data, stats), w') ->
  reward_fn (PyList trajectories)
  = (if decide (input_ids = []) then Raise TypeError else Raise AssertionError) /\
  (input_ids <> [] -> reward_fn (NdArray 5 trajectories) = Raise AssertionError).
Proof.
  intros H.
  apply experience_fn_inv in H
    as (r & w1 & data2 & stats2 & p2 & o2 & _ & _ & _ & Htrajs).
  apply build_trajectories_inv in Htrajs as [_ ->].
  destruct input_ids as [|x input_ids].
  - by rewrite decide_True.
  - rewrite decide_False by done.
    split; [|intros _]; by apply reward_fn_assert_fails.
Qed.

Lemma reward_fn_rejects_experience_witness :
  exists trajectories data stats w,
    encoder_decoder_experience_fn (scripted_env " 1") ["Roses"; "Violets"] [1; 0; 1]
    = (Ok (trajectories, data, stats), w) /\
    reward_fn (NdArray 5 trajectories) = Raise AssertionError.
Proof.
  eexists _, _, _, _. split; [vm_compute; reflexivity|].
  eapply (reward_fn_rejects_experience (scripted_env " 1") ["Roses"; "Violets"]
            [1; 0; 1]); [vm_compute; reflexivity | done].
Defined.

Lemma fact_strs_enough (n : nat) (digits : list Z) :
  (n <= length digits)%nat ->
  fact_strs n digits = Ok ((fun i => fact_str (digits !!! i)) <$> seq 0 n).
Proof.
  intros Hn. unfold fact_strs. apply map_result_ok, Forall_forall.
  intros i Hi%list_elem_of_In%in_seq.
  by rewrite getitem_total by lia.
Qed.

(** X16. A short answer of [decode] stops the step before anything is
    generated. When the digits were sampled and the first call of
    [decode] hands back fewer prompts than the batch has rows, the step
    raises [IndexError] in the first loop, and the state of the
    surroundings is the one this call of [decode] left: neither the
    tokenizer nor the generator has run. *)
Theorem experience_fn_short_decode {W T F E V : Type} (env : Env W T F E V)
    (input_ids : list T) (w w1 w2 : W) (sampled : list Z)
    (prompts outputs : list string) :
  randint env 0 2 (length input_ids) w = (Ok sampled, w1) ->
  (length input_ids <= length sampled)%nat ->
  decode env input_ids input_ids w1 = (Ok (prompts, outputs), w2) ->
  (length prompts < length input_ids)%nat ->
  encoder_decoder_experience_fn env input_ids w = (Raise IndexError, w2).
Proof.
  intros Hrand Hlen Hdec Hshort.
  unfold encoder_decoder_experience_fn, run_first, mbind, M_bind.
  rewrite Hrand. unfold lift at 1. rewrite fact_strs_enough by done.
  rewrite Hdec. unfold lift at 1.
  unfold first_run_strs. rewrite for_range_assign2.
  rewrite decide_False by lia. done.
Qed.

Lemma experience_fn_short_decode_witness :
  encoder_decoder_experience_fn
    {| randint := fun _ _ n w => (Ok (take n w), drop n w);
       decode := fun queries responses w => (Ok (take 1 queries, responses), 7 :: w);
       tokenizer := fun strs w => (Ok strs, 8 :: w);
       generate_and_calc_logprobs := fun queries w =>
         (Ok (mkRunElementBatch queries [] [] queries queries ([] : list Z),
              ({["kl" := 1]} : gmap string Z)), 9 :: w);
       add := Z.add |}
    ["Roses"; "Violets"] [1; 0; 1]
  = (Raise IndexError, [7; 1]).
Proof.
  eapply (experience_fn_short_decode _ ["Roses"; "Violets"] [1; 0; 1]);
    [reflexivity | simpl; lia | reflexivity | simpl; lia].
Defined.

(** ** The reward of an answer that repeats the secret *)

Lemma recalled_last_digit_char (z : Z) :
  is_superscript_digit (last_digit_char z) = false /\
  recalled (last_digit_char z) = Z.abs z mod 10.
Proof.
  pose proof (Z.mod_pos_bound (Z.abs z) 10) as Hmod.
  assert (Hnat : nat_of_ascii (last_digit_char z)
                 = (48 + Z.to_nat (Z.abs z mod 10))%nat).
  { unfold last_digit_char. apply nat_ascii_embedding. lia. }
  assert (Hdec : is_decimal_char (last_digit_char z) = true).
  { unfold is_decimal_char. rewrite Hnat.
    apply andb_true_iff. split; apply Nat.leb_le; lia. }
  split.
  - destruct (is_superscript_digit (last_digit_char z)) eqn:Hs; [|done].
    apply superscript_not_decimal in Hs. congruence.
  - unfold recalled. rewrite Hdec. unfold digit_value. rewrite Hnat. lia.
Qed.

(** A row whose text ends in the decimal string of its own secret. *)
Definition echo_row (item : Z * pyval * string) : list pyval :=
  let '(d, prompt, text) := item in
  [PInt d; prompt; PStr (text +:+ str_of_int d)].

Definition echo_reward (item : Z * pyval * string) : Z :=
  let '(d, _, _) := item in
  if decide (0 <= d <= 9) then 1 else 0.

(** X17. An answer that repeats the secret is rewarded only for
    one-digit secrets. On an array of three columns in which every text
    ends in the decimal string of the secret of its row, [reward_fn]
    returns 1 for the rows whose secret lies between 0 and 9 and 0 for
    all other rows (a negative secret, or one of two digits or more),
    because only the last digit of the answer is compared. *)
Theorem reward_fn_echo (items : list (Z * pyval * string)) :
  reward_fn (NdArray 3 (echo_row <$> items)) = Ok (echo_reward <$> items).
Proof.
  rewrite reward_fn_scorable.
  - f_equal. rewrite <- list_fmap_compose. apply list_fmap_ext.
    intros i [[d prompt] text] _. simpl.
    destruct (last_char_Some _ _ (last_char_str_of_int d)) as [pre Hpre].
    rewrite Hpre, <- string_app_assoc, last_char_snoc.
    destruct (recalled_last_digit_char d) as [_ ->].
    unfold score, py_eq_int.
    pose proof (Z.mod_pos_bound (Z.abs d) 10).
    destruct (Z.eqb_spec d (Z.abs d mod 10)) as [Heq|Hne].
    + rewrite decide_True by lia. done.
    + rewrite decide_False; [done|].
      intros Hd. apply Hne. rewrite Z.abs_eq, Z.mod_small by lia. done.
  - apply Forall_fmap, Forall_forall. intros [[d prompt] text] _.
    destruct (last_char_Some _ _ (last_char_str_of_int d)) as [pre Hpre].
    exists (PInt d), prompt, (text +:+ pre), (last_digit_char d).
    split; [|apply recalled_last_digit_char].
    simpl. by rewrite Hpre, string_app_assoc.
Qed.
